(** * Lightweight feature flags: the evaluation pipeline

    A shallow embedding of [src/hash.js], [InMemoryFlagStore] and
    [FeatureFlagClient], and the properties of the evaluation pipeline.

    Modelling boundary.
    - Strings are sequences of UTF-16 code units ([ustring]).
    - Numbers are the integers together with [NaN], [+Infinity] and
      [-Infinity]; the three special values are kept because they change
      the control flow of the comparisons in the source.  Finite
      non-integral doubles and rounding above 2^53 are outside the model.
    - Values are undefined, null, booleans, numbers, strings, arrays and
      plain objects: the data that JSON and object literals build.
      Arrays and objects carry a reference, which is what [===] compares.
      An object is the list of its own properties in the order of their
      creation; [enumeration_order] is the order in which [Object.entries]
      and the spread syntax list them.
    - No value of the model is a function.  The coercion of an object to
      a string therefore throws when the object has an own property
      [toString] ([ToString] is a computation), and the members that
      objects inherit from [Object.prototype] and [Array.prototype] are
      not values of the model: a read of a name that the object does not
      own answers [undefined] in the model, and the properties that
      depend on such a read are stated for the names in [plain_read].
    - The object [_flags] of the in-memory store has a prototype that a
      write to the key "__proto__" replaces; the store is modelled with
      it.  The context and the flag definitions are plain objects, whose
      prototype is [Object.prototype].
    - A JavaScript call either returns or throws: the hash function, the
      coercions and the methods of the client are computations in the
      [completion] monad.  The methods of the store do not throw and are
      plain functions. *)

From Stdlib Require Import ZArith List Bool Lia Ascii String DecimalString Permutation.
Import ListNotations.
Local Open Scope Z_scope.

(* ================================================================== *)
(** * Part I: definitions *)
(* ================================================================== *)

(** ** Completions: return or throw *)

Inductive error : Type := TypeError.

Inductive completion (A : Type) : Type :=
| Normal (a : A)
| Throw (e : error).
Arguments Normal {A} a.
Arguments Throw {A} e.

Definition bind {A B : Type} (c : completion A) (k : A -> completion B)
  : completion B :=
  match c with
  | Normal a => k a
  | Throw e => Throw e
  end.

Declare Scope js_scope.
Delimit Scope js_scope with js.
Notation "x <- c ;; k" := (bind c (fun x => k))
  (at level 100, c at next level, right associativity) : js_scope.
Local Open Scope js_scope.

Definition returns {A : Type} (c : completion A) : Prop := exists a, c = Normal a.
Definition throws {A : Type} (c : completion A) : Prop := exists e, c = Throw e.

(** ** Strings *)

Definition ustring : Type := list Z.

(** The code units of an ASCII literal of the source. *)
Definition lit (s : string) : ustring :=
  map (fun a => Z.of_N (N_of_ascii a)) (list_ascii_of_string s).

Fixpoint ustring_eqb (a b : ustring) : bool :=
  match a, b with
  | [], [] => true
  | x :: a', y :: b' => (x =? y) && ustring_eqb a' b'
  | _, _ => false
  end.

(** ** Numbers *)

Inductive number : Type :=
| Fin (z : Z)
| NaN
| PosInf
| NegInf.

(** [a < b] *)
Definition num_ltb (a b : number) : bool :=
  match a, b with
  | NaN, _ | _, NaN => false
  | Fin x, Fin y => x <? y
  | NegInf, NegInf => false
  | NegInf, _ => true
  | _, NegInf => false
  | PosInf, _ => false
  | Fin _, PosInf => true
  end.

(** [a === b] on numbers *)
Definition num_eqb (a b : number) : bool :=
  match a, b with
  | Fin x, Fin y => x =? y
  | PosInf, PosInf => true
  | NegInf, NegInf => true
  | _, _ => false
  end.

(** [a <= b] *)
Definition num_leb (a b : number) : bool := num_ltb a b || num_eqb a b.

(** [a >= b] *)
Definition num_geb (a b : number) : bool := num_leb b a.

(** [Math.min(a, b)] *)
Definition Math_min (a b : number) : number :=
  match a, b with
  | NaN, _ | _, NaN => NaN
  | _, _ => if num_ltb b a then b else a
  end.

(** [Math.max(a, b)] *)
Definition Math_max (a b : number) : number :=
  match a, b with
  | NaN, _ | _, NaN => NaN
  | _, _ => if num_ltb a b then b else a
  end.

(** [a + b] on numbers *)
Definition num_add (a b : number) : number :=
  match a, b with
  | NaN, _ | _, NaN => NaN
  | Fin x, Fin y => Fin (x + y)
  | PosInf, NegInf | NegInf, PosInf => NaN
  | PosInf, _ | _, PosInf => PosInf
  | NegInf, _ | _, NegInf => NegInf
  end.

(** [a % b] for a finite dividend: the remainder takes the sign of the
    dividend, a zero or [NaN] divisor gives [NaN], an infinite divisor
    gives the dividend back. *)
Definition num_rem (a b : number) : number :=
  match a, b with
  | Fin x, Fin y => if y =? 0 then NaN else Fin (Z.rem x y)
  | Fin x, (PosInf | NegInf) => Fin x
  | _, _ => NaN
  end.

(** The decimal digits of an integer, with its sign. *)
Definition decimal (z : Z) : ustring := lit (NilZero.string_of_int (Z.to_int z)).

Fixpoint drop_zeros (digits : ustring) : ustring :=
  match digits with
  | 48 :: rest => drop_zeros rest
  | _ => digits
  end.

(** The exponent form ["d.ddde+n"] of an integer: its significant digits
    (the decimal digits without the trailing zeros) and the power of ten
    of the first one.  These are the digits JavaScript prints when they
    are the shortest that denote the double, as for 1e21 or 25e20. *)
Definition exponent_form (z : Z) : ustring :=
  let digits := decimal (Z.abs z) in
  let exponent := decimal (Z.of_nat (List.length digits) - 1) in
  (if z <? 0 then lit "-" else [])
  ++ match rev (drop_zeros (rev digits)) with
     | [] => []
     | [d] => [d]
     | d :: rest => d :: lit "." ++ rest
     end
  ++ lit "e+" ++ exponent.

(** [String(n)]: an integer prints its decimal digits below 10^21 and in
    exponent form from there on. *)
Definition Number_toString (n : number) : ustring :=
  match n with
  | Fin z => if Z.abs z <? 10 ^ 21 then decimal z else exponent_form z
  | NaN => lit "NaN"
  | PosInf => lit "Infinity"
  | NegInf => lit "-Infinity"
  end.

(** ** 32-bit integer operations *)

Definition ToUint32 (z : Z) : Z := z mod 2 ^ 32.

Definition ToInt32 (z : Z) : Z :=
  let u := z mod 2 ^ 32 in
  if 2 ^ 31 <=? u then u - 2 ^ 32 else u.

(** [a ^ b]: both operands as signed 32-bit integers, signed result. *)
Definition js_xor (a b : Z) : Z := ToInt32 (Z.lxor (ToInt32 a) (ToInt32 b)).

(** [Math.imul(a, b)] *)
Definition Math_imul (a b : Z) : Z := ToInt32 (ToUint32 a * ToUint32 b).

(** [a >>> 0] *)
Definition ushr0 (a : Z) : Z := ToUint32 a.

(** ** hash.js *)

Module Hash.

Definition FNV_offset_basis : Z := 2166136261.
Definition FNV_prime : Z := 16777619.

(** One turn of the loop of [hashStringToInt]; [c] is [str.charCodeAt(i)]. *)
Definition step (hash c : Z) : Z :=
  let hash := js_xor hash c in
  ushr0 (Math_imul hash FNV_prime).

(** The value of [hash] when the loop ends. *)
Definition hash32 (str : ustring) : Z :=
  fold_left step str (ushr0 FNV_offset_basis).

Definition hashStringToInt (str : ustring) (max : number) : completion number :=
  let hash := hash32 str in
  Normal (num_rem (Fin hash) max).

(** The hash as the specification words it: 32-bit FNV-1a over the code
    units, XOR and then multiply with unsigned wrap-around. *)
Definition fnv1a_step (h c : Z) : Z := (Z.lxor h c * 16777619) mod 2 ^ 32.

Definition fnv1a (str : ustring) : Z := fold_left fnv1a_step str 2166136261.

End Hash.
Import Hash.

(** ** Values *)

#[warnings="-register-all"] Inductive value : Type :=
| VUndefined
| VNull
| VBoolean (b : bool)
| VNumber (n : number)
| VString (s : ustring)
| VArray (ref : nat) (elems : list value)
| VObject (ref : nat) (props : list (ustring * value)).

Definition properties : Type := list (ustring * value).

(** [typeof v] *)
Definition typeof (v : value) : ustring :=
  match v with
  | VUndefined => lit "undefined"
  | VNull => lit "object"
  | VBoolean _ => lit "boolean"
  | VNumber _ => lit "number"
  | VString _ => lit "string"
  | VArray _ _ => lit "object"
  | VObject _ _ => lit "object"
  end.

(** Truthiness: what [!v], [v && w], [v || w] and [if (v)] look at. *)
Definition ToBoolean (v : value) : bool :=
  match v with
  | VUndefined | VNull => false
  | VBoolean b => b
  | VNumber (Fin z) => negb (z =? 0)
  | VNumber NaN => false
  | VNumber _ => true
  | VString [] => false
  | VString _ => true
  | VArray _ _ | VObject _ _ => true
  end.

(** [a === b] *)
Definition strict_equals (a b : value) : bool :=
  match a, b with
  | VUndefined, VUndefined => true
  | VNull, VNull => true
  | VBoolean x, VBoolean y => Bool.eqb x y
  | VNumber x, VNumber y => num_eqb x y
  | VString x, VString y => ustring_eqb x y
  | VArray r _, VArray r' _ => Nat.eqb r r'
  | VObject r _, VObject r' _ => Nat.eqb r r'
  | _, _ => false
  end.

(** SameValueZero, the comparison of [Array.prototype.includes]: strict
    equality, except that [NaN] is the same value as [NaN]. *)
Definition same_value_zero (a b : value) : bool :=
  match a, b with
  | VNumber NaN, VNumber NaN => true
  | _, _ => strict_equals a b
  end.

(** The own property [name] of a property list. *)
Fixpoint lookup (name : ustring) (props : properties) : option value :=
  match props with
  | [] => None
  | (k, v) :: rest => if ustring_eqb k name then Some v else lookup name rest
  end.

(** [String(v)], which is also the coercion of [v] to a property name in
    [o[v]].  An array joins the strings of its elements.  A plain object
    answers through its [toString] method: the inherited one returns
    "[object Object]"; an own property [toString] hides it, and as no
    value of the model is a function the coercion then finds no method
    that returns a primitive and throws a TypeError. *)
Fixpoint ToString (v : value) : completion ustring :=
  match v with
  | VUndefined => Normal (lit "undefined")
  | VNull => Normal (lit "null")
  | VBoolean true => Normal (lit "true")
  | VBoolean false => Normal (lit "false")
  | VNumber n => Normal (Number_toString n)
  | VString s => Normal s
  | VArray _ elems =>
      (fix join (xs : list value) : completion ustring :=
         match xs with
         | [] => Normal []
         | x :: rest =>
             sx <- match x with
                   | VUndefined | VNull => Normal []
                   | _ => ToString x
                   end ;;
             match rest with
             | [] => Normal sx
             | _ :: _ => sr <- join rest ;; Normal (sx ++ lit "," ++ sr)
             end
         end) elems
  | VObject _ props =>
      match lookup (lit "toString") props with
      | Some _ => Throw TypeError
      | None => Normal (lit "[object Object]")
      end
  end.

(** [a ?? b] *)
Definition nullish_coalesce (a b : value) : value :=
  match a with
  | VUndefined | VNull => b
  | _ => a
  end.

(** [a || b] *)
Definition js_or (a b : value) : value := if ToBoolean a then a else b.

(** [a && b], the right operand being a computation that runs only when
    the left one is truthy. *)
Definition js_and (a : value) (b : completion value) : completion value :=
  if ToBoolean a then b else Normal a.

(** The name of the array index [i]. *)
Definition index_name (i : nat) : ustring :=
  lit (NilZero.string_of_uint (Nat.to_uint i)).

Definition index_entries (xs : list value) : properties :=
  combine (map index_name (seq 0 (List.length xs))) xs.

(** The array index a property name denotes, if any: the name is the
    decimal numeral of an integer from 0 to 2^32 - 2. *)
Definition array_index (name : ustring) : option Z :=
  let n := fold_left (fun acc c => 10 * acc + (c - 48)) name 0 in
  if forallb (fun c => (48 <=? c) && (c <=? 57)) name
     && ustring_eqb name (decimal n) && (n <? 2 ^ 32 - 1)
  then Some n else None.

Definition is_index (e : ustring * value) : bool :=
  match array_index (fst e) with
  | Some _ => true
  | None => false
  end.

Definition index_of (e : ustring * value) : Z :=
  match array_index (fst e) with
  | Some n => n
  | None => 0
  end.

Fixpoint insert_entry (e : ustring * value) (sorted : properties) : properties :=
  match sorted with
  | [] => [e]
  | e' :: rest =>
      if index_of e <=? index_of e' then e :: sorted
      else e' :: insert_entry e rest
  end.

(** The order in which JavaScript enumerates the own properties of an
    object, from the order in which they were created: the names that
    are array indices first, in ascending order, then the other names in
    creation order. *)
Definition enumeration_order (props : properties) : properties :=
  fold_right insert_entry [] (filter is_index props)
  ++ filter (fun e => negb (is_index e)) props.

(** The own properties of a value: those of an object in creation
    order, the elements of an array and the code units of a string under
    their indices. *)
Definition own_properties (v : value) : properties :=
  match v with
  | VObject _ props => props
  | VArray _ elems => index_entries elems
  | VString s => index_entries (map (fun c => VString [c]) s)
  | _ => []
  end.

(** Own enumerable properties, in enumeration order. *)
Definition own_entries (v : value) : properties :=
  match v with
  | VObject _ props => enumeration_order props
  | _ => own_properties v
  end.

(** [Object.entries(v)] *)
Definition Object_entries (v : value) : completion properties :=
  match v with
  | VUndefined | VNull => Throw TypeError
  | _ => Normal (own_entries v)
  end.

(** [Array.isArray(v)] *)
Definition Array_isArray (v : value) : bool :=
  match v with
  | VArray _ _ => true
  | _ => false
  end.

(** The elements of an array, for [for (... of v)] and [v.includes]. *)
Definition array_elems (v : value) : list value :=
  match v with
  | VArray _ elems => elems
  | _ => []
  end.

(** [v.includes(x)] for an array [v] *)
Definition Array_includes (v x : value) : bool :=
  existsb (same_value_zero x) (array_elems v).

(** [o.name]: reading a property of [undefined] or [null] throws; the
    other values answer with their own property, with their [length]
    (arrays and strings), or with [undefined].  The program reads the
    names [enabled], [conditions], [rollout], [variants], [percentage],
    [attribute], [operator], [value] and [weight], none of which a
    prototype defines. *)
Definition get (o : value) (name : ustring) : completion value :=
  match o with
  | VUndefined | VNull => Throw TypeError
  | _ =>
      Normal
        match lookup name (own_properties o) with
        | Some v => v
        | None =>
            match o with
            | VArray _ elems =>
                if ustring_eqb name (lit "length")
                then VNumber (Fin (Z.of_nat (List.length elems))) else VUndefined
            | VString s =>
                if ustring_eqb name (lit "length")
                then VNumber (Fin (Z.of_nat (List.length s))) else VUndefined
            | _ => VUndefined
            end
        end
  end.

(** ** Inherited names *)

(** The names of the properties of a property list. *)
Definition keys (props : properties) : list ustring := map fst props.

(** The names [Object.prototype] defines. *)
Definition Object_prototype_names : list ustring :=
  map lit ["constructor"; "__defineGetter__"; "__defineSetter__"; "hasOwnProperty";
           "__lookupGetter__"; "__lookupSetter__"; "isPrototypeOf";
           "propertyIsEnumerable"; "toString"; "valueOf"; "__proto__";
           "toLocaleString"]%string.

Definition is_prototype_name (name : ustring) : bool :=
  existsb (ustring_eqb name) Object_prototype_names.

(** A read of [name] on the plain object with the own properties [props]
    that answers with plain data: the object owns the name, or no
    prototype member has it. *)
Definition plain_read (props : properties) (name : ustring) : Prop :=
  In name (keys props) \/ is_prototype_name name = false.

(** ** The context *)

(** The context is a plain object; it is given by its own properties.  A
    call that passes no context is a call with the empty context. *)
Definition Context : Type := properties.

(** What [o[name]] answers for a plain object with the own properties
    [props].  A name the object does not own reads as [undefined], unless
    [Object.prototype] defines it: the object then answers with the
    inherited member, a function or the prototype itself.  Those are not
    values of the model, and the properties about a missing name are
    stated for the names in [plain_read]. *)
Definition own_or_undefined (props : properties) (name : ustring) : value :=
  match lookup name props with
  | Some v => v
  | None => VUndefined
  end.

(** [context[k]]: the key is coerced to a property name, which throws
    when the key has no string. *)
Definition context_get (context : Context) (k : value) : completion value :=
  name <- ToString k ;;
  Normal (own_or_undefined context name).

(** ** InMemoryFlagStore.js *)

(** The interface [FlagStore] of the client. *)
Class FlagStore (S : Type) : Type := {
  getFlag : S -> ustring -> value;
  getAllFlags : S -> properties;
  upsertFlag : S -> ustring -> value -> S;
  deleteFlag : S -> ustring -> S
}.

Module InMemoryFlagStore.

(** The prototype of the object [_flags]: [Object.prototype], as the
    object literal of the constructor has it, or the value a write to
    the key ["__proto__"] has put in its place. *)
Inductive prototype : Type :=
| ObjectPrototype
| Replaced (proto : value).

(** The object [_flags]: its own properties in creation order, and its
    prototype. *)
Record t : Type := { _flags : properties; _proto : prototype }.

(** [o[key] = v] on the own properties of an object: an existing key
    keeps its place, a new one goes last. *)
Fixpoint set_prop (key : ustring) (v : value) (props : properties) : properties :=
  match props with
  | [] => [(key, v)]
  | (k, w) :: rest =>
      if ustring_eqb k key then (k, v) :: rest
      else (k, w) :: set_prop key v rest
  end.

(** [delete o[key]] *)
Fixpoint delete_prop (key : ustring) (props : properties) : properties :=
  match props with
  | [] => []
  | (k, w) :: rest =>
      if ustring_eqb k key then rest else (k, w) :: delete_prop key rest
  end.

(** The spread [{ ...initialFlags }] copies the own properties in
    enumeration order into a fresh object. *)
Definition new (initialFlags : option properties) : t :=
  {| _flags := match initialFlags with
               | Some fl => enumeration_order fl
               | None => []
               end;
     _proto := ObjectPrototype |}.

(** What a read of [name] answers when [_flags] does not own it: the
    property of the prototype.  A replaced prototype is a plain object or
    an array, with its own properties, or [null], with none; the name
    ["__proto__"], when the prototype does not own it, reads the
    prototype itself.  The members of [Object.prototype] and
    [Array.prototype] are not values of the model (see
    [own_or_undefined]). *)
Definition inherited (proto : prototype) (name : ustring) : value :=
  match proto with
  | ObjectPrototype => VUndefined
  | Replaced (VObject ref props) =>
      match lookup name props with
      | Some v => v
      | None =>
          if ustring_eqb name (lit "__proto__") then VObject ref props
          else VUndefined
      end
  | Replaced (VArray ref elems) =>
      match lookup name (index_entries elems) with
      | Some v => v
      | None =>
          if ustring_eqb name (lit "length")
          then VNumber (Fin (Z.of_nat (List.length elems)))
          else if ustring_eqb name (lit "__proto__") then VArray ref elems
          else VUndefined
      end
  | Replaced _ => VUndefined
  end.

Definition getFlag (this : t) (key : ustring) : value :=
  match lookup key (_flags this) with
  | Some v => v
  | None => inherited (_proto this) key
  end.

Definition getAllFlags (this : t) : properties := enumeration_order (_flags this).

(** Whether a write to ["__proto__"] on an object that does not own the
    name reaches the setter of [Object.prototype]: not when the
    prototype is [null], and not when the prototype owns a property of
    that name, which the write then shadows with an own property. *)
Definition reaches_proto_setter (proto : prototype) : bool :=
  match proto with
  | ObjectPrototype => true
  | Replaced (VObject _ props) =>
      match lookup (lit "__proto__") props with
      | Some _ => false
      | None => true
      end
  | Replaced (VArray _ _) => true
  | Replaced _ => false
  end.

(** The setter takes an object or [null] and ignores every other value. *)
Definition accepted_as_prototype (v : value) : bool :=
  match v with
  | VNull | VArray _ _ | VObject _ _ => true
  | _ => false
  end.

(** [this._flags[key] = config].  The key ["__proto__"], unless
    [_flags] owns it, is no property of [_flags]: the write goes to the
    setter, which replaces the prototype. *)
Definition upsertFlag (this : t) (key : ustring) (config : value) : t :=
  if ustring_eqb key (lit "__proto__")
     && match lookup key (_flags this) with Some _ => false | None => true end
     && reaches_proto_setter (_proto this)
  then
    if accepted_as_prototype config
    then {| _flags := _flags this; _proto := Replaced config |}
    else this
  else {| _flags := set_prop key config (_flags this); _proto := _proto this |}.

Definition deleteFlag (this : t) (key : ustring) : t :=
  {| _flags := delete_prop key (_flags this); _proto := _proto this |}.

End InMemoryFlagStore.

#[export] Instance InMemoryFlagStore_FlagStore : FlagStore InMemoryFlagStore.t := {
  getFlag := InMemoryFlagStore.getFlag;
  getAllFlags := InMemoryFlagStore.getAllFlags;
  upsertFlag := InMemoryFlagStore.upsertFlag;
  deleteFlag := InMemoryFlagStore.deleteFlag
}.


(** ** FeatureFlagClient *)

Record FeatureFlagClient (S : Type) : Type := {
  store : S;
  seed : ustring;
  defaultRolloutAttribute : ustring
}.
Arguments store {S} _.
Arguments seed {S} _.
Arguments defaultRolloutAttribute {S} _.

(** The result of [evaluate]: [variant] is a name or [null] ([None]);
    [flag] is a property the result may lack. *)
Record EvaluationResult : Type := {
  enabled : bool;
  variant : option ustring;
  flag : option value
}.

(** [s || d] for a string option [s] of the constructor, which may be
    missing. *)
Definition option_or (s : option ustring) (d : ustring) : ustring :=
  match s with
  | Some ((_ :: _) as x) => x
  | _ => d
  end.

(** The constructor, for a client over the in-memory store. *)
Definition new_FeatureFlagClient
  (store : option InMemoryFlagStore.t) (seed defaultRolloutAttribute : option ustring)
  : FeatureFlagClient InMemoryFlagStore.t :=
  {| store := match store with Some s => s | None => InMemoryFlagStore.new None end;
     seed := option_or seed (lit "feature-flags-default-seed");
     defaultRolloutAttribute := option_or defaultRolloutAttribute (lit "userId") |}.

(** [typeof w === "number" ? w : 0] *)
Definition number_or_zero (w : value) : number :=
  match w with
  | VNumber n => n
  | _ => Fin 0
  end.

(** [entries[entries.length - 1][0]] *)
Definition last_entry_name (entries : properties) : completion value :=
  match rev entries with
  | [] => Throw TypeError
  | (name, _) :: _ => Normal (VString name)
  end.

Section Client.

Context {S : Type} `{FlagStore S}.
Variable this : FeatureFlagClient S.

Fixpoint _evaluateConditions (conditions : list value) (context : Context)
  : completion bool :=
  match conditions with
  | [] => Normal true
  | cond :: rest =>
      attribute <- get cond (lit "attribute") ;;
      actual <- context_get context attribute ;;
      expected <- get cond (lit "value") ;;
      operator <- get cond (lit "operator") ;;
      if strict_equals operator (VString (lit "eq")) then
        if negb (strict_equals actual expected) then Normal false
        else _evaluateConditions rest context
      else if strict_equals operator (VString (lit "neq")) then
        if strict_equals actual expected then Normal false
        else _evaluateConditions rest context
      else if strict_equals operator (VString (lit "in")) then
        if negb (Array_isArray expected) || negb (Array_includes expected actual)
        then Normal false
        else _evaluateConditions rest context
      else if strict_equals operator (VString (lit "not_in")) then
        if Array_isArray expected && Array_includes expected actual
        then Normal false
        else _evaluateConditions rest context
      else Normal false
  end.

Definition _computeBucket (key identifier : ustring) : completion number :=
  let str := seed this ++ lit ":" ++ key ++ lit ":" ++ identifier in
  hash <- hashStringToInt str (Fin 100) ;;
  Normal hash.

(** [entries.reduce((sum, [, cfg]) => ..., sum)] of [_selectVariant] *)
Fixpoint reduce_weights (entries : properties) (sum : number) : completion number :=
  match entries with
  | [] => Normal sum
  | (_, cfg) :: rest =>
      cw <- get cfg (lit "weight") ;;
      let w := number_or_zero cw in
      reduce_weights rest (num_add sum (Math_max (Fin 0) w))
  end.

(** The [for] loop of [_selectVariant]: [Some name] when it returns
    [name], [None] when it runs to its end. *)
Fixpoint select_loop (bucket : number) (entries : properties) (cumulative : number)
  : completion (option ustring) :=
  match entries with
  | [] => Normal None
  | (name, cfg) :: rest =>
      cw <- get cfg (lit "weight") ;;
      let w := Math_max (Fin 0) (number_or_zero cw) in
      let cumulative := num_add cumulative w in
      if num_ltb bucket cumulative then Normal (Some name)
      else select_loop bucket rest cumulative
  end.

Definition _selectVariant (key : ustring) (flag : value) (context : Context)
  : completion (option ustring) :=
  variants <- get flag (lit "variants") ;;
  if negb (ToBoolean variants) || negb (ustring_eqb (typeof variants) (lit "object"))
  then Normal None
  else
    entries <- Object_entries variants ;;
    if (Z.of_nat (List.length entries) =? 0) then Normal None
    else
      totalWeight <- reduce_weights entries (Fin 0) ;;
      if num_leb totalWeight (Fin 0) then Normal None
      else
        rollout <- get flag (lit "rollout") ;;
        ra <- js_and rollout (get rollout (lit "attribute")) ;;
        let attr := js_or ra (VString (defaultRolloutAttribute this)) in
        v <- context_get context attr ;;
        identifier <- ToString (nullish_coalesce v (VString [])) ;;
        let str := seed this ++ lit ":variant:" ++ key ++ lit ":" ++ identifier in
        bucket <- hashStringToInt str totalWeight ;;
        found <- select_loop bucket entries (Fin 0) ;;
        match found with
        | Some name => Normal (Some name)
        | None =>
            last <- last_entry_name entries ;;
            match js_or last VNull with
            | VString name => Normal (Some name)
            | _ => Normal None
            end
        end.

Definition evaluate (key : ustring) (context : Context)
  : completion EvaluationResult :=
  let flag := getFlag (store this) key in
  if negb (ToBoolean flag)
  then Normal {| enabled := false; variant := None; flag := None |}
  else
    let disabled := {| enabled := false; variant := None; flag := Some flag |} in
    (* The later steps are named first: each is what an earlier step
       goes on with when it does not return. *)
    (* Variants *)
    let variants_step :=
      variant <- _selectVariant key flag context ;;
      Normal {| enabled := true; variant := variant; flag := Some flag |} in
    (* Rollout (percentage based) *)
    let rollout_step :=
      rollout <- get flag (lit "rollout") ;;
      if ToBoolean rollout then
        p <- get rollout (lit "percentage") ;;
        match p with
        | VNumber p =>
            let percentage := Math_max (Fin 0) (Math_min (Fin 100) p) in
            if num_eqb percentage (Fin 0) then Normal disabled
            else if num_ltb percentage (Fin 100) then
              ra <- get rollout (lit "attribute") ;;
              let attr := js_or ra (VString (defaultRolloutAttribute this)) in
              v <- context_get context attr ;;
              identifier <- ToString (nullish_coalesce v (VString [])) ;;
              bucket <- _computeBucket key identifier ;;
              if num_geb bucket percentage then Normal disabled
              else variants_step
            else variants_step
        | _ => variants_step
        end
      else variants_step in
    (* Base enabled status *)
    flag_enabled <- get flag (lit "enabled") ;;
    if negb (ToBoolean flag_enabled) then Normal disabled
    else
      (* Conditions *)
      conditions <- get flag (lit "conditions") ;;
      if Array_isArray conditions
         && (0 <? Z.of_nat (List.length (array_elems conditions)))
      then
        passes <- _evaluateConditions (array_elems conditions) context ;;
        if negb passes then Normal disabled else rollout_step
      else rollout_step.

Definition isEnabled (key : ustring) (context : Context) : completion bool :=
  r <- evaluate key context ;;
  Normal (enabled r).

Definition getVariant (key : ustring) (context : Context)
  : completion (option ustring) :=
  r <- evaluate key context ;;
  Normal (variant r).

End Client.

(** ** Vocabulary of the specification

    The definitions below are not translations of source functions: they
    name the notions in which the properties of Part II are stated. *)

(** The operators of a condition (the type [ConditionOperator] of the
    source's documentation). *)
Inductive ConditionOperator : Type := OpEq | OpNeq | OpIn | OpNotIn.

Definition operator_of (v : value) : option ConditionOperator :=
  match v with
  | VString s =>
      if ustring_eqb s (lit "eq") then Some OpEq
      else if ustring_eqb s (lit "neq") then Some OpNeq
      else if ustring_eqb s (lit "in") then Some OpIn
      else if ustring_eqb s (lit "not_in") then Some OpNotIn
      else None
  | _ => None
  end.

(** Membership of [actual] in the array [expected] under strict equality. *)
Definition strict_member (expected actual : value) : bool :=
  Array_isArray expected && existsb (strict_equals actual) (array_elems expected).

(** Whether one condition passes, given its operator, the actual value of
    the attribute and the expected value. *)
Definition condition_passes
  (operator : option ConditionOperator) (actual expected : value) : bool :=
  match operator with
  | Some OpEq => strict_equals actual expected
  | Some OpNeq => negb (strict_equals actual expected)
  | Some OpIn => Array_isArray expected && Array_includes expected actual
  | Some OpNotIn => negb (Array_isArray expected && Array_includes expected actual)
  | None => false
  end.

Definition nullish (v : value) : Prop := v = VUndefined \/ v = VNull.

(** A value that has a string: [String(v)] and [o[v]] do not throw. *)
Definition coercible (v : value) : Prop := returns (ToString v).

(** A condition entry the evaluator can read: it is neither [undefined]
    nor [null], and its attribute names a property. *)
Definition condition_defined (cond : value) : Prop :=
  exists attribute, get cond (lit "attribute") = Normal attribute /\ coercible attribute.

(** The property that the attribute of a condition names is plain data
    of the context (see [plain_read]). *)
Definition condition_plain (context : Context) (cond : value) : Prop :=
  forall attribute name,
    get cond (lit "attribute") = Normal attribute ->
    ToString attribute = Normal name ->
    plain_read context name.

(** A condition entry that is an object (or any value other than
    [undefined] and [null]), whose attribute names a property, and that
    passes in the context. *)
Definition condition_holds (context : Context) (cond : value) : bool :=
  match get cond (lit "attribute"), get cond (lit "operator"), get cond (lit "value") with
  | Normal attribute, Normal operator, Normal expected =>
      match context_get context attribute with
      | Normal actual => condition_passes (operator_of operator) actual expected
      | Throw _ => false
      end
  | _, _, _ => false
  end.

(** The conditions step of [evaluate] on its own: [false] when the flag
    has a non-empty array of conditions that fails. *)
Definition conditions_gate (flag : value) (context : Context) : completion bool :=
  conditions <- get flag (lit "conditions") ;;
  if Array_isArray conditions
     && (0 <? Z.of_nat (List.length (array_elems conditions)))
  then _evaluateConditions (array_elems conditions) context
  else Normal true.

(** [Math.max(0, Math.min(100, p))] *)
Definition clamp_percentage (p : number) : number :=
  Math_max (Fin 0) (Math_min (Fin 100) p).

(** The weight of a variant entry as both passes of [_selectVariant] read
    it: its [weight] when that is a number, else 0, and never below 0. *)
Definition variant_weight (cfg : value) : number :=
  match get cfg (lit "weight") with
  | Normal w => Math_max (Fin 0) (number_or_zero w)
  | Throw _ => Fin 0
  end.

(** No entry of a variants mapping is [undefined] or [null]. *)
Definition entries_defined (entries : properties) : Prop :=
  Forall (fun e => ~ nullish (snd e)) entries.

(** The sum of the weights of the entries, added in order to [start]. *)
Definition cumulative_weight (start : number) (entries : properties) : number :=
  fold_left num_add (map (fun e => variant_weight (snd e)) entries) start.

Definition total_weight (entries : properties) : number :=
  cumulative_weight (Fin 0) entries.

(** [name] is the first variant of [entries] whose cumulative weight
    exceeds [bucket]. *)
Definition first_exceeding (bucket : number) (entries : properties) (name : ustring)
  : Prop :=
  exists pre cfg post,
    entries = pre ++ (name, cfg) :: post
    /\ num_ltb bucket (total_weight (pre ++ [(name, cfg)])) = true
    /\ forall pre1 e pre2, pre = pre1 ++ e :: pre2 ->
        num_ltb bucket (total_weight (pre1 ++ [e])) = false.

(** No variant of [entries] has a cumulative weight that exceeds [bucket]. *)
Definition none_exceeding (bucket : number) (entries : properties) : Prop :=
  forall pre e post, entries = pre ++ e :: post ->
    num_ltb bucket (total_weight (pre ++ [e])) = false.

Section Vocabulary.

Context {S : Type}.
Variable this : FeatureFlagClient S.

(** The rollout step of [evaluate] on its own (the bucketer of the
    specification, which the source has inline): [true] when the subject
    passes the gate, [false] when the step returns the disabled result. *)
Definition isInRollout (key : ustring) (flag : value) (context : Context)
  : completion bool :=
  rollout <- get flag (lit "rollout") ;;
  if ToBoolean rollout then
    p <- get rollout (lit "percentage") ;;
    match p with
    | VNumber p =>
        let percentage := Math_max (Fin 0) (Math_min (Fin 100) p) in
        if num_eqb percentage (Fin 0) then Normal false
        else if num_ltb percentage (Fin 100) then
          ra <- get rollout (lit "attribute") ;;
          let attr := js_or ra (VString (defaultRolloutAttribute this)) in
          v <- context_get context attr ;;
          identifier <- ToString (nullish_coalesce v (VString [])) ;;
          bucket <- _computeBucket this key identifier ;;
          if num_geb bucket percentage then Normal false
          else Normal true
        else Normal true
    | _ => Normal true
    end
  else Normal true.

(** The attribute that names the subject: [flag.rollout.attribute] when
    the flag has a rollout with a truthy attribute, the client's default
    otherwise. *)
Definition bucketing_attribute (flag : value) : value :=
  match get flag (lit "rollout") with
  | Normal rollout =>
      if ToBoolean rollout then
        match get rollout (lit "attribute") with
        | Normal ra => js_or ra (VString (defaultRolloutAttribute this))
        | Throw _ => VString (defaultRolloutAttribute this)
        end
      else VString (defaultRolloutAttribute this)
  | Throw _ => VString (defaultRolloutAttribute this)
  end.

(** The identifier of the subject: the string coercion of the context's
    value for the bucketing attribute, the empty string when that value
    is [undefined] or [null].  Both coercions, of the attribute to a
    property name and of the value to a string, can throw. *)
Definition identifier_of (flag : value) (context : Context) : completion ustring :=
  v <- context_get context (bucketing_attribute flag) ;;
  ToString (nullish_coalesce v (VString [])).

(** The composite keys fed to the hash. *)
Definition rollout_key (key identifier : ustring) : ustring :=
  seed this ++ lit ":" ++ key ++ lit ":" ++ identifier.

Definition variant_key (key identifier : ustring) : ustring :=
  seed this ++ lit ":variant:" ++ key ++ lit ":" ++ identifier.

End Vocabulary.

(** The names of the properties of an object are pairwise distinct; the
    property lists of the model are meant to satisfy this. *)
Definition keys_unique (props : properties) : Prop := NoDup (keys props).

(** The client [this] seen after its store has changed to [st]: the
    client holds a reference to the store, which the store's methods
    update in place. *)
Definition with_store {S S' : Type} (this : FeatureFlagClient S) (st : S')
  : FeatureFlagClient S' :=
  {| store := st; seed := seed this;
     defaultRolloutAttribute := defaultRolloutAttribute this |}.

(** ** Sample flags

    Concrete flag definitions, a store that holds them and a client with
    the default seed and attribute, for the examples of Part II. *)

Module Sample.

Definition str (s : string) : value := VString (lit s).
Definition num (z : Z) : value := VNumber (Fin z).
Definition obj (ref : nat) (fields : list (string * value)) : value :=
  VObject ref (map (fun kv => (lit (fst kv), snd kv)) fields).

(** [{enabled: true, rollout: {percentage: pct, attribute: "userId"}}] *)
Definition rollout_of (ref : nat) (pct : value) : value :=
  obj ref [("percentage", pct); ("attribute", str "userId")]%string.

Definition flag_rollout (ref : nat) (pct : value) : value :=
  obj ref [("enabled", VBoolean true); ("rollout", rollout_of (ref + 1) pct)]%string.

Definition flag_none : value := flag_rollout 6 (num 0).
Definition flag_all : value := flag_rollout 8 (num 100).
Definition flag_half : value := flag_rollout 10 (num 50).
Definition flag_most : value := flag_rollout 12 (num 80).
Definition flag_nan_percentage : value := flag_rollout 14 (VNumber NaN).
Definition flag_text_percentage : value := flag_rollout 16 (str "50").

(** The A/B example of the README. *)
Definition flag_checkout : value :=
  obj 20 [("enabled", VBoolean true);
          ("rollout", rollout_of 21 (num 100));
          ("variants",
            obj 22 [("control", obj 23 [("weight", num 50)]);
                    ("variantA", obj 24 [("weight", num 25)]);
                    ("variantB", obj 25 [("weight", num 25)])])]%string.

(** [{enabled: true, conditions: [{attribute: "plan", operator: "eq", value: "pro"}]}] *)
Definition flag_pro_only : value :=
  obj 30 [("enabled", VBoolean true);
          ("conditions",
            VArray 31 [obj 32 [("attribute", str "plan"); ("operator", str "eq");
                               ("value", str "pro")]])]%string.

(** [{enabled: true, conditions: [null]}] *)
Definition flag_null_condition : value :=
  obj 40 [("enabled", VBoolean true); ("conditions", VArray 41 [VNull])]%string.

(** [{enabled: true, variants: {a: null}}] *)
Definition flag_null_variant : value :=
  obj 42 [("enabled", VBoolean true); ("variants", obj 43 [("a", VNull)])]%string.

(** [{enabled: true, variants: {"": {weight: NaN}}}] *)
Definition flag_nan_weight : value :=
  obj 44 [("enabled", VBoolean true);
          ("variants", obj 45 [("", obj 46 [("weight", VNumber NaN)])])]%string.

(** [{enabled: false, conditions: [null], rollout: {percentage: 100},
      variants: {a: null}}] *)
Definition flag_disabled : value :=
  obj 50 [("enabled", VBoolean false);
          ("conditions", VArray 51 [VNull]);
          ("rollout", rollout_of 52 (num 100));
          ("variants", obj 53 [("a", VNull)])]%string.

Definition flags : properties :=
  [(lit "none", flag_none); (lit "all", flag_all);
   (lit "half", flag_half); (lit "most", flag_most);
   (lit "nan-percentage", flag_nan_percentage);
   (lit "text-percentage", flag_text_percentage);
   (lit "checkout", flag_checkout); (lit "pro-only", flag_pro_only);
   (lit "null-condition", flag_null_condition);
   (lit "null-variant", flag_null_variant);
   (lit "nan-weight", flag_nan_weight);
   (lit "disabled", flag_disabled)].

Definition ff : FeatureFlagClient InMemoryFlagStore.t :=
  new_FeatureFlagClient (Some (InMemoryFlagStore.new (Some flags))) None None.

(** [{userId: id, plan: "pro"}] *)
Definition user (id : string) : Context :=
  [(lit "userId", str id); (lit "plan", str "pro")].

End Sample.

(** More sample flags: the A/B example at any percentage, and one with
    a variant of weight 0. *)

Module MoreSamples.

Definition variants3 : value :=
  Sample.obj 22 [("control", Sample.obj 23 [("weight", Sample.num 50)]);
                 ("variantA", Sample.obj 24 [("weight", Sample.num 25)]);
                 ("variantB", Sample.obj 25 [("weight", Sample.num 25)])]%string.

Definition flag_checkout_at (pct : value) : value :=
  Sample.obj 20 [("enabled", VBoolean true);
                 ("rollout", Sample.rollout_of 21 pct);
                 ("variants", variants3)]%string.

(** [{userId: id}] for any value [id] *)
Definition user_value (id : value) : Context := [(lit "userId", id)].

(** A client whose store holds the A/B example, rolled out to [pct],
    under the key "checkout". *)
Definition ff_at (pct : value) : FeatureFlagClient InMemoryFlagStore.t :=
  new_FeatureFlagClient
    (Some (InMemoryFlagStore.new (Some [(lit "checkout", flag_checkout_at pct)])))
    None None.

End MoreSamples.

(* ================================================================== *)
(** * Part II: properties *)
(* ================================================================== *)

(** ** Completions *)

Lemma returns_not_throws {A : Type} (c : completion A) :
  returns c -> ~ throws c.
Proof.
  intros [a Ha] [e He]. rewrite Ha in He. discriminate He.
Qed.

(** ** Strings *)

Lemma ustring_eqb_eq (a b : ustring) : ustring_eqb a b = true <-> a = b.
Proof.
  revert b. induction a as [| x a IH]; intros [| y b]; simpl;
    try (split; [discriminate | discriminate]); try tauto.
  rewrite andb_true_iff, Z.eqb_eq, IH. split.
  - intros [-> ->]. reflexivity.
  - intros E. injection E as -> ->. split; reflexivity.
Qed.

Lemma ustring_eqb_refl (a : ustring) : ustring_eqb a a = true.
Proof. apply ustring_eqb_eq. reflexivity. Qed.

(** ** 32-bit arithmetic *)

Lemma lxor_mod_pow2 (a b n : Z) :
  0 <= n -> Z.lxor a b mod 2 ^ n = Z.lxor (a mod 2 ^ n) (b mod 2 ^ n).
Proof.
  intros Hn. apply Z.bits_inj'. intros i Hi.
  destruct (Z.lt_ge_cases i n) as [Hlt | Hge].
  - rewrite Z.mod_pow2_bits_low by lia.
    rewrite !Z.lxor_spec.
    rewrite !Z.mod_pow2_bits_low by lia. reflexivity.
  - rewrite Z.mod_pow2_bits_high by lia.
    rewrite Z.lxor_spec.
    rewrite !Z.mod_pow2_bits_high by lia. reflexivity.
Qed.

Lemma ToUint32_ToInt32 (z : Z) : ToUint32 (ToInt32 z) = ToUint32 z.
Proof.
  unfold ToUint32, ToInt32.
  destruct (2 ^ 31 <=? z mod 2 ^ 32).
  - replace (z mod 2 ^ 32 - 2 ^ 32) with (z mod 2 ^ 32 + (-1) * 2 ^ 32) by ring.
    rewrite Z_mod_plus_full. apply Z.mod_mod. lia.
  - apply Z.mod_mod. lia.
Qed.

Lemma ToUint32_small (z : Z) : 0 <= z < 2 ^ 32 -> ToUint32 z = z.
Proof. intros Hz. unfold ToUint32. apply Z.mod_small. exact Hz. Qed.

(** ** The hash *)

Lemma step_fnv1a_step (h c : Z) : Hash.step h c = fnv1a_step h c.
Proof.
  unfold Hash.step, fnv1a_step, ushr0, Math_imul, js_xor, FNV_prime.
  rewrite !ToUint32_ToInt32.
  rewrite (ToUint32_small 16777619) by lia.
  unfold ToUint32 at 2.
  rewrite lxor_mod_pow2 by lia.
  fold (ToUint32 (ToInt32 h)). fold (ToUint32 (ToInt32 c)).
  rewrite !ToUint32_ToInt32.
  unfold ToUint32.
  rewrite <- lxor_mod_pow2 by lia.
  rewrite Z.mul_mod_idemp_l by lia. reflexivity.
Qed.

Lemma fold_fnv1a_range (str : ustring) (h : Z) :
  0 <= h < 2 ^ 32 -> 0 <= fold_left fnv1a_step str h < 2 ^ 32.
Proof.
  revert h. induction str as [| c str IH]; intros h Hh; simpl.
  - exact Hh.
  - apply IH. unfold fnv1a_step. apply Z.mod_pos_bound. lia.
Qed.

Lemma fnv1a_range (str : ustring) : 0 <= fnv1a str < 2 ^ 32.
Proof. unfold fnv1a. apply fold_fnv1a_range. lia. Qed.

Lemma hash32_fnv1a (str : ustring) : hash32 str = fnv1a str.
Proof.
  unfold hash32, fnv1a, FNV_offset_basis, ushr0.
  rewrite ToUint32_small by lia.
  generalize 2166136261.
  induction str as [| c str IH]; intros h; simpl.
  - reflexivity.
  - rewrite step_fnv1a_step. apply IH.
Qed.

Lemma hashStringToInt_positive (str : ustring) (max : Z) :
  0 < max ->
  hashStringToInt str (Fin max) = Normal (Fin (fnv1a str mod max)).
Proof.
  intros Hmax. unfold hashStringToInt. rewrite hash32_fnv1a. simpl.
  destruct (Z.eqb_spec max 0) as [E | _]; [lia |].
  rewrite Z.rem_mod_nonneg; [reflexivity | apply fnv1a_range | exact Hmax].
Qed.

(** C5. For a positive integer [max], [hashStringToInt] returns the 32-bit
    FNV-1a hash of the code units of the string (offset basis 2166136261,
    XOR of each code unit and then multiplication by 16777619 modulo 2^32)
    reduced modulo [max]; the result is an integer in [0, max). *)
Theorem hashStringToInt_fnv1a (str : ustring) (max : Z) :
  0 < max ->
  hashStringToInt str (Fin max) = Normal (Fin (fnv1a str mod max))
  /\ 0 <= fnv1a str mod max < max.
Proof.
  intros Hmax. split.
  - apply hashStringToInt_positive. exact Hmax.
  - apply Z.mod_pos_bound. exact Hmax.
Qed.

Lemma hashStringToInt_fnv1a_witness :
  0 < 100
  /\ hashStringToInt (lit "abc") (Fin 100) = Normal (Fin (fnv1a (lit "abc") mod 100))
  /\ 0 <= fnv1a (lit "abc") mod 100 < 100.
Proof. split; [lia | apply (hashStringToInt_fnv1a (lit "abc") 100); lia]. Defined.

(** C9, as the claim states it, fails: with [max = 0] the hash of the
    empty string is the value [NaN], and with [max = -7] the hash of "abc"
    is the value 5; neither call throws. *)
Lemma hashStringToInt_nonpositive_max_returns :
  hashStringToInt [] (Fin 0) = Normal NaN
  /\ hashStringToInt (lit "abc") (Fin (-7)) = Normal (Fin 5)
  /\ ~ throws (hashStringToInt [] (Fin 0))
  /\ ~ throws (hashStringToInt (lit "abc") (Fin (-7))).
Proof.
  repeat split; try reflexivity;
    apply returns_not_throws; eexists; reflexivity.
Qed.

(** C9, amended. For a non-positive [max] the hash function does not fail,
    it returns a value: [NaN] when [max] is 0, the 32-bit hash reduced
    modulo [|max|] when [max] is a negative integer, and the 32-bit hash
    itself when [max] is [-Infinity]. *)
Theorem hashStringToInt_nonpositive_max (str : ustring) (max : number) :
  num_leb max (Fin 0) = true ->
  returns (hashStringToInt str max)
  /\ ((max = Fin 0 /\ hashStringToInt str max = Normal NaN)
      \/ (exists z, max = Fin z /\ z < 0
                    /\ hashStringToInt str max = Normal (Fin (fnv1a str mod (- z)))
                    /\ 0 <= fnv1a str mod (- z) < - z)
      \/ (max = NegInf /\ hashStringToInt str max = Normal (Fin (fnv1a str)))).
Proof.
  intros Hmax. unfold hashStringToInt. rewrite hash32_fnv1a.
  split; [eexists; reflexivity |].
  destruct max as [z | | |]; try discriminate Hmax.
  - unfold num_leb, num_ltb, num_eqb in Hmax. apply orb_true_iff in Hmax.
    destruct (Z.eq_dec z 0) as [-> | Hz].
    + left. split; reflexivity.
    + right. left. exists z.
      assert (Hneg : z < 0)
        by (destruct Hmax as [Hlt | Heq];
            [apply Z.ltb_lt in Hlt; exact Hlt | apply Z.eqb_eq in Heq; contradiction]).
      split; [reflexivity |]. split; [exact Hneg |]. split.
      * cbn [num_rem]. destruct (Z.eqb_spec z 0) as [E | _]; [contradiction |].
        rewrite <- (Z.opp_involutive z) at 1. rewrite Z.rem_opp_r by lia.
        rewrite Z.rem_mod_nonneg; [reflexivity | apply fnv1a_range | lia].
      * apply Z.mod_pos_bound. lia.
  - right. right. split; reflexivity.
Qed.

Lemma hashStringToInt_nonpositive_max_witness :
  num_leb (Fin (-7)) (Fin 0) = true
  /\ returns (hashStringToInt (lit "abc") (Fin (-7)))
  /\ ((Fin (-7) = Fin 0 /\ hashStringToInt (lit "abc") (Fin (-7)) = Normal NaN)
      \/ (exists z, Fin (-7) = Fin z /\ z < 0
                    /\ hashStringToInt (lit "abc") (Fin (-7))
                       = Normal (Fin (fnv1a (lit "abc") mod (- z)))
                    /\ 0 <= fnv1a (lit "abc") mod (- z) < - z)
      \/ (Fin (-7) = NegInf
          /\ hashStringToInt (lit "abc") (Fin (-7)) = Normal (Fin (fnv1a (lit "abc"))))).
Proof.
  split; [reflexivity |].
  apply (hashStringToInt_nonpositive_max (lit "abc") (Fin (-7))). reflexivity.
Defined.

(** ** Values *)

Arguments lit : simpl never.

Lemma same_value_zero_strict (a b : value) :
  a <> VNumber NaN -> same_value_zero a b = strict_equals a b.
Proof.
  intros Ha.
  destruct a as [| | x | [z | | |] | s | r xs | r ps];
    destruct b as [| | y | [w | | |] | t | r' ys | r' qs];
    try reflexivity.
  contradiction Ha. reflexivity.
Qed.

Lemma get_not_nullish (o : value) (name : ustring) :
  ~ nullish o -> returns (get o name).
Proof.
  unfold nullish, returns. intros Ho.
  destruct o; simpl; try (eexists; reflexivity); exfalso; apply Ho; auto.
Qed.

Lemma get_Normal_not_nullish (o : value) (name : ustring) (v : value) :
  get o name = Normal v -> ~ nullish o.
Proof.
  intros Hget [-> | ->]; discriminate Hget.
Qed.

Lemma ToBoolean_not_nullish (v : value) : ToBoolean v = true -> ~ nullish v.
Proof.
  intros Hv [-> | ->]; discriminate Hv.
Qed.

(** ** The context *)

Lemma context_get_Normal (context : Context) (k : value) (name : ustring) :
  ToString k = Normal name ->
  context_get context k = Normal (own_or_undefined context name).
Proof. intros Hk. unfold context_get. rewrite Hk. reflexivity. Qed.

Lemma context_get_Throw (context : Context) (k : value) (e : error) :
  ToString k = Throw e -> context_get context k = Throw e.
Proof. intros Hk. unfold context_get. rewrite Hk. reflexivity. Qed.

Lemma context_get_coercible (context : Context) (k : value) :
  coercible k -> returns (context_get context k).
Proof.
  intros [name Hk]. eexists. apply context_get_Normal. exact Hk.
Qed.

(** ** The condition evaluator *)

Lemma evaluateConditions_cons (cond : value) (rest : list value) (context : Context) :
  _evaluateConditions (cond :: rest) context =
  (passes <- _evaluateConditions [cond] context ;;
   if passes then _evaluateConditions rest context else Normal false).
Proof.
  cbn [_evaluateConditions].
  destruct (get cond (lit "attribute")) as [a | e]; [| reflexivity]. cbn [bind].
  destruct (context_get context a) as [actual | e]; [| reflexivity]. cbn [bind].
  destruct (get cond (lit "value")) as [v | e]; [| reflexivity]. cbn [bind].
  destruct (get cond (lit "operator")) as [op | e]; [| reflexivity]. cbn [bind].
  repeat match goal with
         | |- context [if ?b then _ else _] => destruct b
         end; reflexivity.
Qed.

Lemma evaluateConditions_single
  (context : Context) (cond attribute operator expected actual : value) :
  get cond (lit "attribute") = Normal attribute ->
  get cond (lit "operator") = Normal operator ->
  get cond (lit "value") = Normal expected ->
  context_get context attribute = Normal actual ->
  _evaluateConditions [cond] context =
  Normal (condition_passes (operator_of operator) actual expected).
Proof.
  intros Ha Ho Hv Hc. cbn [_evaluateConditions]. rewrite Ha. cbn [bind].
  rewrite Hc. cbn [bind]. rewrite Hv, Ho. cbn [bind].
  destruct operator as [| | b | n | s | r xs | r ps]; try reflexivity.
  cbn [strict_equals operator_of].
  destruct (ustring_eqb s (lit "eq")).
  { cbn [condition_passes].
    destruct (strict_equals actual expected); reflexivity. }
  destruct (ustring_eqb s (lit "neq")).
  { cbn [condition_passes].
    destruct (strict_equals actual expected); reflexivity. }
  destruct (ustring_eqb s (lit "in")).
  { cbn [condition_passes].
    destruct (Array_isArray expected);
      destruct (Array_includes expected actual); reflexivity. }
  destruct (ustring_eqb s (lit "not_in")).
  { cbn [condition_passes].
    destruct (Array_isArray expected);
      destruct (Array_includes expected actual); reflexivity. }
  reflexivity.
Qed.

(** A condition whose attribute has no property name stops the
    evaluator with the error of the coercion. *)
Lemma evaluateConditions_uncoercible
  (context : Context) (cond attribute : value) (rest : list value) (e : error) :
  get cond (lit "attribute") = Normal attribute ->
  ToString attribute = Throw e ->
  _evaluateConditions (cond :: rest) context = Throw e.
Proof.
  intros Ha Hk. cbn [_evaluateConditions]. rewrite Ha. cbn [bind].
  rewrite (context_get_Throw _ _ _ Hk). reflexivity.
Qed.

Lemma condition_defined_not_nullish (cond : value) :
  condition_defined cond -> ~ nullish cond.
Proof.
  intros [a [Ha _]]. exact (get_Normal_not_nullish _ _ _ Ha).
Qed.

Lemma evaluateConditions_single_holds (context : Context) (cond : value) :
  condition_defined cond ->
  _evaluateConditions [cond] context = Normal (condition_holds context cond).
Proof.
  intros [a [Ha Hk]].
  pose proof (get_Normal_not_nullish _ _ _ Ha) as Hc.
  destruct (get_not_nullish cond (lit "operator") Hc) as [o Ho].
  destruct (get_not_nullish cond (lit "value") Hc) as [v Hv].
  destruct (context_get_coercible context a Hk) as [actual Hactual].
  unfold condition_holds. rewrite Ha, Ho, Hv, Hactual.
  exact (evaluateConditions_single _ _ _ _ _ _ Ha Ho Hv Hactual).
Qed.

(** A condition that is not defined stops the evaluator with an error. *)
Lemma evaluateConditions_undefined
  (context : Context) (cond : value) (rest : list value) :
  ~ condition_defined cond ->
  throws (_evaluateConditions (cond :: rest) context)
  /\ condition_holds context cond = false.
Proof.
  intros Hnd. unfold condition_holds. cbn [_evaluateConditions].
  destruct (get cond (lit "attribute")) as [a | e] eqn:Ha.
  - cbn [bind]. destruct (ToString a) as [name | e] eqn:Hk.
    + exfalso. apply Hnd. exists a. split; [exact Ha | exists name; exact Hk].
    + rewrite (context_get_Throw _ _ _ Hk). cbn [bind].
      split; [exists e; reflexivity |].
      destruct (get cond (lit "operator")); [| reflexivity].
      destruct (get cond (lit "value")); reflexivity.
  - split; [exists e; reflexivity | reflexivity].
Qed.

Lemma condition_defined_dec (cond : value) :
  condition_defined cond \/ ~ condition_defined cond.
Proof.
  unfold condition_defined, coercible, returns.
  destruct (get cond (lit "attribute")) as [a | e] eqn:Ha.
  - destruct (ToString a) as [name | e] eqn:Hk.
    + left. exists a. split; [reflexivity | exists name; exact Hk].
    + right. intros [a' [E [name Hn]]]. injection E as <-.
      rewrite Hk in Hn. discriminate Hn.
  - right. intros [a' [E _]]. discriminate E.
Qed.

Lemma evaluateConditions_forallb (context : Context) (conditions : list value) :
  Forall condition_defined conditions ->
  _evaluateConditions conditions context =
  Normal (forallb (condition_holds context) conditions).
Proof.
  induction 1 as [| cond rest Hc _ IH].
  - reflexivity.
  - rewrite evaluateConditions_cons, (evaluateConditions_single_holds _ _ Hc).
    cbn [bind forallb]. destruct (condition_holds context cond); [exact IH | reflexivity].
Qed.

Lemma evaluateConditions_short_circuit
  (context : Context) (pre : list value) (cond : value) (post : list value) :
  Forall condition_defined pre ->
  forallb (condition_holds context) pre = true ->
  condition_defined cond ->
  condition_holds context cond = false ->
  _evaluateConditions (pre ++ cond :: post) context = Normal false.
Proof.
  intros Hpre. induction Hpre as [| c pre Hc _ IH]; intros Hall Hcond Hfail.
  - cbn [app]. rewrite evaluateConditions_cons.
    rewrite (evaluateConditions_single_holds _ _ Hcond), Hfail. reflexivity.
  - cbn [forallb] in Hall. apply andb_true_iff in Hall as [Hc1 Hall].
    cbn [app]. rewrite evaluateConditions_cons.
    rewrite (evaluateConditions_single_holds _ _ Hc), Hc1. cbn [bind].
    apply IH; assumption.
Qed.

Lemma includes_strict_member (expected actual : value) :
  actual <> VNumber NaN ->
  Array_isArray expected && Array_includes expected actual = strict_member expected actual.
Proof.
  intros Ha. unfold strict_member, Array_includes. f_equal.
  induction (array_elems expected) as [| x xs IH]; [reflexivity |].
  cbn [existsb]. rewrite IH, same_value_zero_strict by exact Ha. reflexivity.
Qed.

Lemma operator_of_unknown (operator : value) :
  operator <> VString (lit "eq") -> operator <> VString (lit "neq") ->
  operator <> VString (lit "in") -> operator <> VString (lit "not_in") ->
  operator_of operator = None.
Proof.
  intros H1 H2 H3 H4.
  destruct operator as [| | b | n | s | r xs | r ps]; try reflexivity.
  cbn [operator_of].
  destruct (ustring_eqb s (lit "eq")) eqn:E1.
  { apply ustring_eqb_eq in E1. subst s. contradiction H1. reflexivity. }
  destruct (ustring_eqb s (lit "neq")) eqn:E2.
  { apply ustring_eqb_eq in E2. subst s. contradiction H2. reflexivity. }
  destruct (ustring_eqb s (lit "in")) eqn:E3.
  { apply ustring_eqb_eq in E3. subst s. contradiction H3. reflexivity. }
  destruct (ustring_eqb s (lit "not_in")) eqn:E4.
  { apply ustring_eqb_eq in E4. subst s. contradiction H4. reflexivity. }
  reflexivity.
Qed.

(** C3, as the claim states it, fails: in the context [{x: NaN}] the
    condition [{attribute: "x", operator: "in", value: [NaN]}] passes,
    although no element of its value strictly equals the actual value.
    And the evaluator returns nothing on the condition
    [{attribute: {toString: 1}, operator: "eq"}]: the attribute has no
    property name, and the read of the context throws. *)
Lemma in_condition_passes_on_NaN :
  let context : Context := [(lit "x", VNumber NaN)] in
  let expected := VArray 1 [VNumber NaN] in
  let cond := VObject 2 [(lit "attribute", VString (lit "x"));
                         (lit "operator", VString (lit "in"));
                         (lit "value", expected)] in
  let unnamed := VObject 3 [(lit "attribute", VObject 4 [(lit "toString", VNumber (Fin 1))]);
                            (lit "operator", VString (lit "eq"))] in
  _evaluateConditions [cond] context = Normal true
  /\ context_get context (VString (lit "x")) = Normal (VNumber NaN)
  /\ strict_member expected (VNumber NaN) = false
  /\ _evaluateConditions [unnamed] [] = Throw TypeError.
Proof. repeat split. Qed.

(** C3, amended. On a list of conditions that are objects whose
    attributes have property names, the condition evaluator returns
    [true] for the empty list and otherwise the AND of its conditions,
    stopping at the first that fails.  For one condition, with [actual]
    the property of the context that the attribute names ([undefined]
    when the context does not own it, for the names that
    [Object.prototype] does not define): [eq] passes iff [actual]
    strictly equals the value; [neq] passes iff it does not; [in] passes
    iff the value is an array that includes [actual]; [not_in] passes iff
    the value is not an array or does not include [actual]; any other
    operator fails.  Inclusion is that of [Array.prototype.includes]:
    strict equality, except that [NaN] is included in an array that holds
    [NaN]; for an actual value other than [NaN] it is membership under
    strict equality.  A condition whose attribute has no property name
    stops the evaluator with a TypeError. *)
Theorem evaluateConditions_semantics (context : Context) :
  _evaluateConditions [] context = Normal true
  /\ (forall cond rest,
        _evaluateConditions (cond :: rest) context =
        (passes <- _evaluateConditions [cond] context ;;
         if passes then _evaluateConditions rest context else Normal false))
  /\ (forall conditions,
        Forall condition_defined conditions ->
        Forall (condition_plain context) conditions ->
        _evaluateConditions conditions context =
        Normal (forallb (condition_holds context) conditions))
  /\ (forall pre cond post,
        Forall condition_defined (pre ++ [cond]) ->
        Forall (condition_plain context) (pre ++ [cond]) ->
        forallb (condition_holds context) pre = true ->
        condition_holds context cond = false ->
        _evaluateConditions (pre ++ cond :: post) context = Normal false)
  /\ (forall cond attribute operator expected name,
        get cond (lit "attribute") = Normal attribute ->
        get cond (lit "operator") = Normal operator ->
        get cond (lit "value") = Normal expected ->
        ToString attribute = Normal name ->
        plain_read context name ->
        let actual := own_or_undefined context name in
        (lookup name context = None -> actual = VUndefined)
        /\ condition_holds context cond
           = condition_passes (operator_of operator) actual expected
        /\ exists passes,
          _evaluateConditions [cond] context = Normal passes
          /\ (operator = VString (lit "eq") ->
              passes = strict_equals actual expected)
          /\ (operator = VString (lit "neq") ->
              passes = negb (strict_equals actual expected))
          /\ (operator = VString (lit "in") ->
              passes = Array_isArray expected && Array_includes expected actual)
          /\ (operator = VString (lit "not_in") ->
              passes = negb (Array_isArray expected && Array_includes expected actual))
          /\ (operator <> VString (lit "eq") -> operator <> VString (lit "neq") ->
              operator <> VString (lit "in") -> operator <> VString (lit "not_in") ->
              passes = false))
  /\ (forall cond attribute rest e,
        get cond (lit "attribute") = Normal attribute ->
        ToString attribute = Throw e ->
        _evaluateConditions (cond :: rest) context = Throw e)
  /\ (forall expected actual,
        actual <> VNumber NaN ->
        Array_isArray expected && Array_includes expected actual
        = strict_member expected actual).
Proof.
  split; [reflexivity |].
  split; [intros; apply evaluateConditions_cons |].
  split; [intros; apply evaluateConditions_forallb; assumption |].
  split.
  { intros pre cond post Hdef _ Hall Hfail.
    apply Forall_app in Hdef as [Hpre Hcond]. inversion Hcond; subst.
    apply evaluateConditions_short_circuit; assumption. }
  split; [| split; [intros; eapply evaluateConditions_uncoercible; eassumption
                   | intros; apply includes_strict_member; assumption]].
  intros cond attribute operator expected name Ha Ho Hv Hk _ actual.
  pose proof (context_get_Normal context _ _ Hk) as Hactual. fold actual in Hactual.
  split.
  { intros Hnone. unfold actual, own_or_undefined. rewrite Hnone. reflexivity. }
  split.
  { unfold condition_holds. rewrite Ha, Ho, Hv, Hactual. reflexivity. }
  eexists. split; [apply (evaluateConditions_single _ _ _ _ _ _ Ha Ho Hv Hactual) |].
  repeat split.
  - intros ->. reflexivity.
  - intros ->. reflexivity.
  - intros ->. reflexivity.
  - intros ->. reflexivity.
  - intros H1 H2 H3 H4. rewrite operator_of_unknown by assumption. reflexivity.
Qed.

(** ** Numbers *)

Lemma clamp_percentage_Fin (z : Z) :
  clamp_percentage (Fin z) = Fin (Z.max 0 (Z.min 100 z)).
Proof.
  unfold clamp_percentage, Math_min, Math_max, num_ltb.
  destruct (Z.ltb_spec z 100) as [Hlt | Hge].
  - destruct (Z.ltb_spec 0 z); f_equal; lia.
  - change (0 <? 100) with true. cbv iota. f_equal. lia.
Qed.

Lemma clamp_percentage_range (p : number) :
  p <> NaN -> exists z, clamp_percentage p = Fin z /\ 0 <= z <= 100.
Proof.
  intros Hp. destruct p as [z | | |].
  - exists (Z.max 0 (Z.min 100 z)). split; [apply clamp_percentage_Fin | lia].
  - contradiction Hp. reflexivity.
  - exists 100. split; [reflexivity | lia].
  - exists 0. split; [reflexivity | lia].
Qed.

Lemma num_leb_Fin (x y : Z) : num_leb (Fin x) (Fin y) = (x <=? y).
Proof.
  unfold num_leb, num_ltb, num_eqb.
  destruct (Z.ltb_spec x y), (Z.eqb_spec x y), (Z.leb_spec x y);
    simpl; try reflexivity; lia.
Qed.

Lemma clamp_percentage_monotone (p p' : number) (z z' : Z) :
  num_leb p p' = true ->
  clamp_percentage p = Fin z -> clamp_percentage p' = Fin z' -> z <= z'.
Proof.
  intros Hle Hc Hc'.
  destruct p as [x | | |]; destruct p' as [x' | | |];
    cbn in Hle; try discriminate Hle;
    rewrite ?clamp_percentage_Fin in Hc; rewrite ?clamp_percentage_Fin in Hc';
    try change (clamp_percentage PosInf) with (Fin 100) in Hc;
    try change (clamp_percentage PosInf) with (Fin 100) in Hc';
    try change (clamp_percentage NegInf) with (Fin 0) in Hc;
    try change (clamp_percentage NegInf) with (Fin 0) in Hc';
    injection Hc as <-; injection Hc' as <-; try lia.
  fold (num_leb (Fin x) (Fin x')) in Hle.
  rewrite num_leb_Fin in Hle. apply Z.leb_le in Hle. lia.
Qed.

Lemma not_geb_Fin (b z : Z) : negb (num_geb (Fin b) (Fin z)) = (b <? z).
Proof.
  unfold num_geb, num_leb, num_ltb, num_eqb.
  destruct (Z.ltb_spec z b), (Z.eqb_spec z b), (Z.ltb_spec b z);
    simpl; try reflexivity; lia.
Qed.

(** ** The rollout gate *)

Section Rollout.

Context {S : Type}.
Variable this : FeatureFlagClient S.
Variable key : ustring.
Variable context : Context.

Lemma bucketing_attribute_rollout (flag rollout ra : value) :
  get flag (lit "rollout") = Normal rollout ->
  ToBoolean rollout = true ->
  get rollout (lit "attribute") = Normal ra ->
  bucketing_attribute this flag = js_or ra (VString (defaultRolloutAttribute this)).
Proof.
  intros Hr Ht Ha. unfold bucketing_attribute. rewrite Hr, Ht, Ha. reflexivity.
Qed.

Lemma bucketing_attribute_no_rollout (flag rollout : value) :
  get flag (lit "rollout") = Normal rollout ->
  ToBoolean rollout = false ->
  bucketing_attribute this flag = VString (defaultRolloutAttribute this).
Proof.
  intros Hr Ht. unfold bucketing_attribute. rewrite Hr, Ht. reflexivity.
Qed.

(** The identifier, from the property name of the bucketing attribute. *)
Lemma identifier_of_name (flag : value) (name : ustring) :
  ToString (bucketing_attribute this flag) = Normal name ->
  identifier_of this flag context =
  ToString (nullish_coalesce (own_or_undefined context name) (VString [])).
Proof.
  intros Hk. unfold identifier_of. rewrite (context_get_Normal _ _ _ Hk). reflexivity.
Qed.

Lemma identifier_of_uncoercible (flag : value) (e : error) :
  ToString (bucketing_attribute this flag) = Throw e ->
  identifier_of this flag context = Throw e.
Proof.
  intros Hk. unfold identifier_of. rewrite (context_get_Throw _ _ _ Hk). reflexivity.
Qed.

Lemma isInRollout_no_rollout (flag rollout : value) :
  get flag (lit "rollout") = Normal rollout ->
  ToBoolean rollout = false ->
  isInRollout this key flag context = Normal true.
Proof.
  intros Hr Ht. unfold isInRollout. rewrite Hr. cbn [bind]. rewrite Ht. reflexivity.
Qed.

Lemma isInRollout_not_number (flag rollout p : value) :
  get flag (lit "rollout") = Normal rollout ->
  ToBoolean rollout = true ->
  get rollout (lit "percentage") = Normal p ->
  (forall n, p <> VNumber n) ->
  isInRollout this key flag context = Normal true.
Proof.
  intros Hr Ht Hp Hn. unfold isInRollout. rewrite Hr. cbn [bind].
  rewrite Ht, Hp. cbn [bind].
  destruct p; try reflexivity. contradiction (Hn n). reflexivity.
Qed.

Lemma isInRollout_number (flag rollout : value) (p : number) :
  get flag (lit "rollout") = Normal rollout ->
  ToBoolean rollout = true ->
  get rollout (lit "percentage") = Normal (VNumber p) ->
  isInRollout this key flag context =
  if num_eqb (clamp_percentage p) (Fin 0) then Normal false
  else if num_ltb (clamp_percentage p) (Fin 100) then
    identifier <- identifier_of this flag context ;;
    Normal (negb (num_geb
      (Fin (fnv1a (rollout_key this key identifier) mod 100))
      (clamp_percentage p)))
  else Normal true.
Proof.
  intros Hr Ht Hp.
  destruct (get_not_nullish rollout (lit "attribute") (ToBoolean_not_nullish _ Ht))
    as [ra Ha].
  unfold identifier_of. rewrite (bucketing_attribute_rollout _ _ _ Hr Ht Ha).
  unfold isInRollout. rewrite Hr. cbn [bind]. rewrite Ht, Hp. cbn [bind].
  fold (clamp_percentage p).
  destruct (num_eqb (clamp_percentage p) (Fin 0)); [reflexivity |].
  destruct (num_ltb (clamp_percentage p) (Fin 100)); [| reflexivity].
  rewrite Ha. cbn [bind].
  destruct (context_get context _) as [v | e]; [| reflexivity]. cbn [bind].
  destruct (ToString (nullish_coalesce v (VString []))) as [identifier | e];
    [| reflexivity].
  cbn [bind]. unfold _computeBucket.
  fold (rollout_key this key identifier).
  rewrite hashStringToInt_positive by lia. cbn [bind].
  destruct (num_geb _ _); reflexivity.
Qed.

End Rollout.

Section RolloutGate.

Context {S : Type}.
Variable this : FeatureFlagClient S.
Variable key : ustring.
Variable context : Context.

(** C4, amended. With no rollout the subject is included, whatever the
    context.  With a rollout whose percentage is a number other than
    [NaN], the percentage is clamped to [0,100]; clamped to 0 the subject
    is excluded; clamped to 100 it is included; in neither case is
    anything read from the context.  In between, the bucketing attribute
    [rollout.attribute || default] is coerced to a property name and the
    identifier is the string coercion of that property of the context,
    the empty string when the property is [undefined] or [null] (as it is
    when the context does not own it, for the names [Object.prototype]
    does not define); the subject is included iff the hash of
    "seed:flagKey:identifier" with max 100 is strictly less than the
    clamped percentage.  When the attribute has no property name or the
    property has no string, the gate throws a TypeError.  A percentage
    that is [NaN] is not clamped and includes the subject. *)
Theorem rollout_gate (flag : value) :
  (forall rollout,
     get flag (lit "rollout") = Normal rollout ->
     ToBoolean rollout = false ->
     isInRollout this key flag context = Normal true)
  /\ (forall rollout p,
        get flag (lit "rollout") = Normal rollout ->
        ToBoolean rollout = true ->
        get rollout (lit "percentage") = Normal (VNumber p) ->
        (p <> NaN -> exists z, clamp_percentage p = Fin z /\ 0 <= z <= 100)
        /\ (clamp_percentage p = Fin 0 ->
            isInRollout this key flag context = Normal false)
        /\ (clamp_percentage p = Fin 100 ->
            isInRollout this key flag context = Normal true)
        /\ (p = NaN -> isInRollout this key flag context = Normal true)
        /\ (forall z ra,
              clamp_percentage p = Fin z -> 0 < z < 100 ->
              get rollout (lit "attribute") = Normal ra ->
              let attr := js_or ra (VString (defaultRolloutAttribute this)) in
              (forall name identifier,
                 ToString attr = Normal name ->
                 plain_read context name ->
                 ToString (nullish_coalesce (own_or_undefined context name) (VString []))
                 = Normal identifier ->
                 (lookup name context = None -> identifier = [])
                 /\ exists bucket,
                      hashStringToInt
                        (seed this ++ lit ":" ++ key ++ lit ":" ++ identifier) (Fin 100)
                      = Normal (Fin bucket)
                      /\ 0 <= bucket < 100
                      /\ isInRollout this key flag context = Normal (bucket <? z))
              /\ (forall e,
                    ToString attr = Throw e ->
                    isInRollout this key flag context = Throw e)
              /\ (forall name e,
                    ToString attr = Normal name ->
                    ToString (nullish_coalesce (own_or_undefined context name) (VString []))
                    = Throw e ->
                    isInRollout this key flag context = Throw e))).
Proof.
  split; [intros rollout Hr Ht; exact (isInRollout_no_rollout this key context _ _ Hr Ht) |].
  intros rollout p Hr Ht Hp.
  pose proof (isInRollout_number this key context _ _ _ Hr Ht Hp) as Hin.
  split; [apply clamp_percentage_range |].
  split; [intros Hc; rewrite Hin, Hc; reflexivity |].
  split; [intros Hc; rewrite Hin, Hc; reflexivity |].
  split; [intros ->; rewrite Hin; reflexivity |].
  intros z ra Hc Hz Ha attr.
  assert (Hbetween :
    isInRollout this key flag context =
    (identifier <- identifier_of this flag context ;;
     Normal (fnv1a (rollout_key this key identifier) mod 100 <? z))).
  { rewrite Hin, Hc. cbn [num_eqb num_ltb].
    destruct (Z.eqb_spec z 0) as [E | _]; [lia |].
    destruct (Z.ltb_spec z 100) as [_ | E]; [| lia].
    destruct (identifier_of this flag context); [| reflexivity].
    cbn [bind]. rewrite not_geb_Fin. reflexivity. }
  pose proof (bucketing_attribute_rollout this _ _ _ Hr Ht Ha) as Hattr.
  fold attr in Hattr.
  split; [| split].
  - intros name identifier Hk _ Hid. split.
    + intros Hnone. unfold own_or_undefined in Hid. rewrite Hnone in Hid.
      injection Hid as <-. reflexivity.
    + exists (fnv1a (seed this ++ lit ":" ++ key ++ lit ":" ++ identifier) mod 100).
      split; [apply hashStringToInt_positive; lia |].
      split; [apply Z.mod_pos_bound; lia |].
      rewrite Hbetween, (identifier_of_name this context flag name), Hid
        by (rewrite Hattr; exact Hk).
      reflexivity.
  - intros e Hk. rewrite Hbetween, (identifier_of_uncoercible this context flag e)
      by (rewrite Hattr; exact Hk).
    reflexivity.
  - intros name e Hk Hid.
    rewrite Hbetween, (identifier_of_name this context flag name), Hid
      by (rewrite Hattr; exact Hk).
    reflexivity.
Qed.

(** C6. For a fixed seed, flag key, context and bucketing attribute, a
    subject that is inside the rollout at percentage [p] is inside it at
    every percentage [p' >= p]. *)
Theorem rollout_monotone (flag flag' rollout rollout' ra : value) (p p' : number) :
  get flag (lit "rollout") = Normal rollout ->
  ToBoolean rollout = true ->
  get rollout (lit "percentage") = Normal (VNumber p) ->
  get rollout (lit "attribute") = Normal ra ->
  get flag' (lit "rollout") = Normal rollout' ->
  ToBoolean rollout' = true ->
  get rollout' (lit "percentage") = Normal (VNumber p') ->
  get rollout' (lit "attribute") = Normal ra ->
  num_geb p' p = true ->
  isInRollout this key flag context = Normal true ->
  isInRollout this key flag' context = Normal true.
Proof.
  intros Hr Ht Hp Ha Hr' Ht' Hp' Ha' Hle.
  rewrite (isInRollout_number this key context _ _ _ Hr Ht Hp).
  rewrite (isInRollout_number this key context _ _ _ Hr' Ht' Hp').
  unfold identifier_of.
  rewrite (bucketing_attribute_rollout this _ _ _ Hr Ht Ha).
  rewrite (bucketing_attribute_rollout this _ _ _ Hr' Ht' Ha').
  unfold num_geb in Hle.
  assert (Hn : p <> NaN) by (intros ->; destruct p'; discriminate Hle).
  assert (Hn' : p' <> NaN) by (intros ->; destruct p; discriminate Hle).
  destruct (clamp_percentage_range p Hn) as [z [Hz Rz]].
  destruct (clamp_percentage_range p' Hn') as [z' [Hz' Rz']].
  pose proof (clamp_percentage_monotone p p' z z' Hle Hz Hz') as Hzz.
  rewrite Hz, Hz'. cbn [num_eqb num_ltb].
  destruct (Z.eqb_spec z 0); [discriminate |].
  destruct (Z.eqb_spec z' 0); [lia |].
  destruct (Z.ltb_spec z' 100); [| reflexivity].
  destruct (Z.ltb_spec z 100); [| lia].
  match goal with
  | |- context [bind ?c _] => destruct c as [identifier | e]; [| discriminate]
  end.
  cbn [bind]. set (bucket := fnv1a _ mod 100).
  rewrite !not_geb_Fin.
  destruct (Z.ltb_spec bucket z); [| discriminate].
  destruct (Z.ltb_spec bucket z'); [reflexivity | lia].
Qed.

End RolloutGate.

(** C4, as the claim states it, fails: with [rollout.percentage = NaN]
    the clamped percentage is [NaN], neither 0 nor 100, and the subject is
    included although its bucket is not less than the clamped percentage.
    And at 50% the gate neither includes nor excludes the subject
    [{userId: {toString: 1}}]: the identifier has no string coercion,
    and the gate throws. *)
Lemma rollout_gate_NaN_percentage :
  let flag := Sample.flag_nan_percentage in
  let context := Sample.user "user-1" in
  let key := lit "nan-percentage" in
  let bucket := Fin (fnv1a (rollout_key Sample.ff key (lit "user-1")) mod 100) in
  let unnamed := MoreSamples.user_value (VObject 80 [(lit "toString", VNumber (Fin 1))]) in
  isInRollout Sample.ff key flag context = Normal true
  /\ identifier_of Sample.ff flag context = Normal (lit "user-1")
  /\ clamp_percentage NaN = NaN
  /\ num_ltb bucket (clamp_percentage NaN) = false
  /\ isInRollout Sample.ff (lit "half") Sample.flag_half unnamed = Throw TypeError.
Proof. repeat split. Qed.

Lemma rollout_monotone_witness :
  num_geb (Fin 80) (Fin 50) = true
  /\ isInRollout Sample.ff (lit "dash") Sample.flag_half (Sample.user "user-3pro")
     = Normal true
  /\ isInRollout Sample.ff (lit "dash") Sample.flag_most (Sample.user "user-3pro")
     = Normal true.
Proof.
  split; [reflexivity |]. split; [vm_compute; reflexivity |].
  apply (rollout_monotone Sample.ff (lit "dash") (Sample.user "user-3pro")
           Sample.flag_half Sample.flag_most
           (Sample.rollout_of 11 (Sample.num 50)) (Sample.rollout_of 13 (Sample.num 80))
           (Sample.str "userId") (Fin 50) (Fin 80));
    vm_compute; reflexivity.
Defined.

(** ** The orchestrator *)

Ltac case_step :=
  match goal with
  | |- context [get ?o ?n] => destruct (get o n); cbn [bind]
  | |- context [_evaluateConditions ?l ?c] =>
      destruct (_evaluateConditions l c); cbn [bind]
  | |- context [context_get ?c ?k] => destruct (context_get c k); cbn [bind]
  | |- context [ToString ?v] => destruct (ToString v); cbn [bind]
  | |- context [_computeBucket ?t ?k ?i] => destruct (_computeBucket t k i); cbn [bind]
  | |- context [_selectVariant ?t ?k ?f ?c] =>
      destruct (_selectVariant t k f c); cbn [bind]
  | |- context [if ?b then _ else _] => destruct b; cbn [negb]
  | |- context [match ?v with VNumber _ => _ | _ => _ end] => destruct v
  end.

Section Orchestrator.

Context {S : Type} `{FlagStore S}.
Variable this : FeatureFlagClient S.
Variable key : ustring.
Variable context : Context.

(** [evaluate] is the composition of its four gates and the variant
    selector. *)
Lemma evaluate_pipeline :
  evaluate this key context =
  let fl := getFlag (store this) key in
  let disabled := {| enabled := false; variant := None; flag := Some fl |} in
  if negb (ToBoolean fl)
  then Normal {| enabled := false; variant := None; flag := None |}
  else
    flag_enabled <- get fl (lit "enabled") ;;
    if negb (ToBoolean flag_enabled) then Normal disabled
    else
      passes <- conditions_gate fl context ;;
      if negb passes then Normal disabled
      else
        inside <- isInRollout this key fl context ;;
        if negb inside then Normal disabled
        else
          variant <- _selectVariant this key fl context ;;
          Normal {| enabled := true; variant := variant; flag := Some fl |}.
Proof.
  unfold evaluate, conditions_gate, isInRollout. cbv zeta.
  generalize (getFlag (store this) key). intros fl.
  repeat (cbn [bind negb]; first [reflexivity | case_step]).
Qed.

(** C1. [evaluate] follows the five-step pipeline, each step returning
    at once: (1) no definition under the key: disabled, no variant, no
    [flag] field; (2) [enabled] is false: disabled, with the flag; (3) the
    conditions are a non-empty array and fail: disabled, with the flag;
    (4) the conditions do not fail and the rollout gate excludes the
    subject: disabled, with the flag; (5) otherwise: enabled, with the
    variant the variant selector computes, and the flag. *)
Theorem evaluate_five_steps :
  let fl := getFlag (store this) key in
  let disabled := {| enabled := false; variant := None; flag := Some fl |} in
  (fl = VUndefined ->
   evaluate this key context =
   Normal {| enabled := false; variant := None; flag := None |})
  /\ (ToBoolean fl = true ->
      get fl (lit "enabled") = Normal (VBoolean false) ->
      evaluate this key context = Normal disabled)
  /\ (forall flag_enabled ref conditions,
        ToBoolean fl = true ->
        get fl (lit "enabled") = Normal flag_enabled ->
        ToBoolean flag_enabled = true ->
        get fl (lit "conditions") = Normal (VArray ref conditions) ->
        conditions <> [] ->
        _evaluateConditions conditions context = Normal false ->
        evaluate this key context = Normal disabled)
  /\ (forall flag_enabled,
        ToBoolean fl = true ->
        get fl (lit "enabled") = Normal flag_enabled ->
        ToBoolean flag_enabled = true ->
        conditions_gate fl context = Normal true ->
        isInRollout this key fl context = Normal false ->
        evaluate this key context = Normal disabled)
  /\ (forall flag_enabled,
        ToBoolean fl = true ->
        get fl (lit "enabled") = Normal flag_enabled ->
        ToBoolean flag_enabled = true ->
        conditions_gate fl context = Normal true ->
        isInRollout this key fl context = Normal true ->
        evaluate this key context =
        (variant <- _selectVariant this key fl context ;;
         Normal {| enabled := true; variant := variant; flag := Some fl |})).
Proof.
  intros fl disabled. rewrite evaluate_pipeline. cbv zeta. fold fl. fold disabled.
  split; [intros ->; reflexivity |].
  split; [intros -> ->; reflexivity |].
  split.
  { intros en ref conditions -> -> Hen Hc Hne Hfail. cbn [bind negb]. rewrite Hen.
    cbn [negb]. unfold conditions_gate. rewrite Hc. cbn [bind Array_isArray array_elems].
    destruct conditions as [| c cs]; [contradiction Hne; reflexivity |].
    cbn [andb]. replace (0 <? Z.of_nat (List.length (c :: cs))) with true
      by (symmetry; apply Z.ltb_lt; cbn [List.length]; lia).
    rewrite Hfail. reflexivity. }
  split.
  - intros en -> -> Hen -> ->. cbn [bind negb]. rewrite Hen. reflexivity.
  - intros en -> -> Hen -> ->. cbn [bind negb]. rewrite Hen. reflexivity.
Qed.

(** C7. A flag definition whose [enabled] field is [false] evaluates to
    disabled with no variant, whatever its other fields hold. *)
Theorem disabled_dominance (ref : nat) (props : properties) :
  getFlag (store this) key = VObject ref props ->
  lookup (lit "enabled") props = Some (VBoolean false) ->
  evaluate this key context =
  Normal {| enabled := false; variant := None; flag := Some (VObject ref props) |}.
Proof.
  intros Hflag Hen. rewrite evaluate_pipeline. cbv zeta. rewrite Hflag.
  cbn [ToBoolean negb get own_properties]. rewrite Hen. reflexivity.
Qed.

(** C10. When the rollout of a flag is present and its percentage is not
    a number, the rollout gate is skipped: the subject counts as inside
    the rollout, and [evaluate] is decided by the enabled switch, the
    conditions and the variant selector alone; a flag that is enabled and
    whose conditions do not fail evaluates to enabled, with the variant
    the selector computes. *)
Theorem rollout_without_numeric_percentage (rollout p : value) :
  let fl := getFlag (store this) key in
  let disabled := {| enabled := false; variant := None; flag := Some fl |} in
  let selected :=
    variant <- _selectVariant this key fl context ;;
    Normal {| enabled := true; variant := variant; flag := Some fl |} in
  ToBoolean fl = true ->
  get fl (lit "rollout") = Normal rollout ->
  ToBoolean rollout = true ->
  get rollout (lit "percentage") = Normal p ->
  (forall n, p <> VNumber n) ->
  isInRollout this key fl context = Normal true
  /\ evaluate this key context =
     (flag_enabled <- get fl (lit "enabled") ;;
      if negb (ToBoolean flag_enabled) then Normal disabled
      else
        passes <- conditions_gate fl context ;;
        if negb passes then Normal disabled else selected)
  /\ (forall flag_enabled,
        get fl (lit "enabled") = Normal flag_enabled ->
        ToBoolean flag_enabled = true ->
        conditions_gate fl context = Normal true ->
        evaluate this key context = selected).
Proof.
  intros fl disabled selected Hfl Hr Ht Hp Hn.
  pose proof (isInRollout_not_number this key context _ _ _ Hr Ht Hp Hn) as Hin.
  split; [exact Hin |].
  assert (Heval : evaluate this key context =
     (flag_enabled <- get fl (lit "enabled") ;;
      if negb (ToBoolean flag_enabled) then Normal disabled
      else
        passes <- conditions_gate fl context ;;
        if negb passes then Normal disabled else selected)).
  { rewrite evaluate_pipeline. cbv zeta. fold fl. rewrite Hfl, Hin. reflexivity. }
  split; [exact Heval |].
  intros en Hen Hentrue Hgate. rewrite Heval, Hen. cbn [bind].
  rewrite Hentrue, Hgate. reflexivity.
Qed.

End Orchestrator.

Lemma disabled_dominance_witness :
  getFlag (store Sample.ff) (lit "disabled") = Sample.flag_disabled
  /\ evaluate Sample.ff (lit "disabled") (Sample.user "user-1") =
     Normal {| enabled := false; variant := None; flag := Some Sample.flag_disabled |}.
Proof.
  split; [reflexivity |].
  apply (disabled_dominance Sample.ff (lit "disabled") (Sample.user "user-1") 50);
    reflexivity.
Defined.

Lemma rollout_without_numeric_percentage_witness :
  let fl := Sample.flag_text_percentage in
  let context := Sample.user "user-1" in
  get (Sample.rollout_of 17 (Sample.str "50")) (lit "percentage")
  = Normal (Sample.str "50")
  /\ isInRollout Sample.ff (lit "text-percentage") fl context = Normal true
  /\ evaluate Sample.ff (lit "text-percentage") context =
     Normal {| enabled := true; variant := None; flag := Some fl |}.
Proof.
  split; [reflexivity |].
  destruct (rollout_without_numeric_percentage Sample.ff (lit "text-percentage")
              (Sample.user "user-1") (Sample.rollout_of 17 (Sample.str "50"))
              (Sample.str "50")) as [Hin [_ Hev]];
    try reflexivity.
  - intros n. discriminate.
  - split; [exact Hin |]. apply (Hev (VBoolean true)); reflexivity.
Defined.

(** ** Enumeration order *)

Lemma filter_none {A : Type} (f : A -> bool) (l : list A) :
  (forall x, In x l -> f x = false) -> filter f l = [].
Proof.
  induction l as [| a l IH]; intros Hf; [reflexivity |].
  cbn [filter]. rewrite (Hf a (or_introl eq_refl)).
  apply IH. intros x Hx. apply Hf. right. exact Hx.
Qed.

Lemma filter_all {A : Type} (f : A -> bool) (l : list A) :
  (forall x, In x l -> f x = true) -> filter f l = l.
Proof.
  induction l as [| a l IH]; intros Hf; [reflexivity |].
  cbn [filter]. rewrite (Hf a (or_introl eq_refl)). f_equal.
  apply IH. intros x Hx. apply Hf. right. exact Hx.
Qed.

(** An object none of whose names is an array index is enumerated in
    the order in which its properties were created. *)
Lemma enumeration_order_plain (props : properties) :
  (forall e, In e props -> array_index (fst e) = None) ->
  enumeration_order props = props.
Proof.
  intros Hplain. unfold enumeration_order.
  rewrite filter_none, filter_all.
  - reflexivity.
  - intros e He. unfold is_index. rewrite (Hplain e He). reflexivity.
  - intros e He. unfold is_index. rewrite (Hplain e He). reflexivity.
Qed.

(** ** The variant selector *)

Lemma cumulative_weight_cons (start : number) (e : ustring * value) (rest : properties) :
  cumulative_weight start (e :: rest)
  = cumulative_weight (num_add start (variant_weight (snd e))) rest.
Proof. reflexivity. Qed.

Lemma cumulative_weight_single (start : number) (e : ustring * value) :
  cumulative_weight start [e] = num_add start (variant_weight (snd e)).
Proof. reflexivity. Qed.

Lemma get_weight (cfg : value) :
  ~ nullish cfg ->
  exists w, get cfg (lit "weight") = Normal w
            /\ variant_weight cfg = Math_max (Fin 0) (number_or_zero w).
Proof.
  intros Hc. destruct (get_not_nullish cfg (lit "weight") Hc) as [w Hw].
  exists w. split; [exact Hw |]. unfold variant_weight. rewrite Hw. reflexivity.
Qed.

Lemma reduce_weights_total (entries : properties) (sum : number) :
  entries_defined entries ->
  reduce_weights entries sum = Normal (cumulative_weight sum entries).
Proof.
  intros Hd. revert sum. induction Hd as [| [name cfg] rest Hc _ IH]; intros sum.
  - reflexivity.
  - cbn [reduce_weights]. destruct (get_weight cfg Hc) as [w [Hw Hv]].
    rewrite Hw. cbn [bind]. rewrite cumulative_weight_cons. cbn [snd].
    rewrite Hv. apply IH.
Qed.

Lemma select_loop_cons
  (bucket : number) (name : ustring) (cfg : value) (rest : properties) (acc : number) :
  ~ nullish cfg ->
  select_loop bucket ((name, cfg) :: rest) acc =
  if num_ltb bucket (cumulative_weight acc [(name, cfg)]) then Normal (Some name)
  else select_loop bucket rest (cumulative_weight acc [(name, cfg)]).
Proof.
  intros Hc. cbn [select_loop]. destruct (get_weight cfg Hc) as [w [Hw Hv]].
  rewrite Hw. cbn [bind]. rewrite cumulative_weight_single. cbn [snd].
  rewrite Hv. reflexivity.
Qed.

Lemma select_loop_found
  (bucket : number) (pre : properties) (name : ustring) (cfg : value)
  (post : properties) (acc : number) :
  entries_defined (pre ++ (name, cfg) :: post) ->
  num_ltb bucket (cumulative_weight acc (pre ++ [(name, cfg)])) = true ->
  (forall pre1 e pre2, pre = pre1 ++ e :: pre2 ->
     num_ltb bucket (cumulative_weight acc (pre1 ++ [e])) = false) ->
  select_loop bucket (pre ++ (name, cfg) :: post) acc = Normal (Some name).
Proof.
  revert acc. induction pre as [| [n0 c0] pre IH]; intros acc Hd Hhit Hmiss.
  - cbn [app] in *. inversion Hd as [| ? ? Hc _]; subst.
    rewrite select_loop_cons by exact Hc. rewrite Hhit. reflexivity.
  - cbn [app] in *. inversion Hd as [| ? ? Hc Hd']; subst.
    rewrite select_loop_cons by exact Hc.
    pose proof (Hmiss [] (n0, c0) pre eq_refl) as Hfirst.
    cbn [app] in Hfirst. rewrite Hfirst.
    apply IH.
    + exact Hd'.
    + rewrite cumulative_weight_cons in Hhit. exact Hhit.
    + intros pre1 e pre2 ->.
      specialize (Hmiss ((n0, c0) :: pre1) e pre2 eq_refl).
      cbn [app] in Hmiss. rewrite cumulative_weight_cons in Hmiss. exact Hmiss.
Qed.

Lemma select_loop_none (bucket : number) (entries : properties) (acc : number) :
  entries_defined entries ->
  (forall pre e post, entries = pre ++ e :: post ->
     num_ltb bucket (cumulative_weight acc (pre ++ [e])) = false) ->
  select_loop bucket entries acc = Normal None.
Proof.
  intros Hd. revert acc. induction Hd as [| [name cfg] rest Hc _ IH]; intros acc Hmiss.
  - reflexivity.
  - rewrite select_loop_cons by exact Hc.
    pose proof (Hmiss [] (name, cfg) rest eq_refl) as Hfirst.
    cbn [app] in Hfirst. rewrite Hfirst.
    apply IH. intros pre e post ->.
    specialize (Hmiss ((name, cfg) :: pre) e post eq_refl).
    cbn [app] in Hmiss. rewrite cumulative_weight_cons in Hmiss. exact Hmiss.
Qed.

Lemma first_exceeding_exists (bucket : number) (entries : properties) (acc : number) :
  num_ltb bucket acc = false ->
  num_ltb bucket (cumulative_weight acc entries) = true ->
  exists pre name cfg post,
    entries = pre ++ (name, cfg) :: post
    /\ num_ltb bucket (cumulative_weight acc (pre ++ [(name, cfg)])) = true
    /\ forall pre1 e pre2, pre = pre1 ++ e :: pre2 ->
         num_ltb bucket (cumulative_weight acc (pre1 ++ [e])) = false.
Proof.
  revert acc. induction entries as [| [name cfg] rest IH]; intros acc Hacc Htot.
  - cbn in Htot. rewrite Hacc in Htot. discriminate Htot.
  - destruct (num_ltb bucket (cumulative_weight acc [(name, cfg)])) eqn:Hhere.
    + exists [], name, cfg, rest. split; [reflexivity |]. split; [exact Hhere |].
      intros pre1 e pre2 Hpre. destruct pre1; discriminate Hpre.
    + rewrite cumulative_weight_cons in Htot.
      destruct (IH _ Hhere Htot) as (pre & n & c & post & -> & Hhit & Hmiss).
      exists ((name, cfg) :: pre), n, c, post. split; [reflexivity |]. split.
      * cbn [app]. rewrite cumulative_weight_cons. exact Hhit.
      * intros pre1 e pre2 Hpre. destruct pre1 as [| e1 pre1]; cbn [app] in Hpre.
        -- injection Hpre as <- _. exact Hhere.
        -- injection Hpre as <- ->. cbn [app]. rewrite cumulative_weight_cons.
           apply (Hmiss pre1 e pre2 eq_refl).
Qed.

Lemma hashStringToInt_any (str : ustring) (max : number) :
  hashStringToInt str max = Normal (num_rem (Fin (fnv1a str)) max).
Proof. unfold hashStringToInt. rewrite hash32_fnv1a. reflexivity. Qed.

Lemma bucket_below_total (h : Z) (total : number) :
  0 <= h -> total <> NaN -> num_leb total (Fin 0) = false ->
  num_ltb (num_rem (Fin h) total) total = true.
Proof.
  intros Hh Hn Hpos. destruct total as [z | | |].
  - rewrite num_leb_Fin in Hpos. apply Z.leb_gt in Hpos.
    cbn [num_rem]. destruct (Z.eqb_spec z 0) as [E | _]; [lia |].
    cbn [num_ltb]. apply Z.ltb_lt. rewrite Z.rem_mod_nonneg by lia.
    apply Z.mod_pos_bound. lia.
  - contradiction Hn. reflexivity.
  - reflexivity.
  - discriminate Hpos.
Qed.

Lemma bucket_not_negative (h : Z) (total : number) :
  0 <= h -> num_ltb (num_rem (Fin h) total) (Fin 0) = false.
Proof.
  intros Hh. destruct total as [z | | |]; try reflexivity.
  - cbn [num_rem]. destruct (Z.eqb_spec z 0) as [E | Hz]; [reflexivity |].
    cbn [num_ltb]. apply Z.ltb_ge. apply Z.rem_nonneg; assumption.
  - cbn [num_rem num_ltb]. apply Z.ltb_ge. exact Hh.
  - cbn [num_rem num_ltb]. apply Z.ltb_ge. exact Hh.
Qed.

Lemma last_entry_name_snoc (pre : properties) (name : ustring) (cfg : value) :
  last_entry_name (pre ++ [(name, cfg)]) = Normal (VString name).
Proof. unfold last_entry_name. rewrite rev_unit. reflexivity. Qed.

Section VariantSelector.

Context {S : Type}.
Variable this : FeatureFlagClient S.
Variable key : ustring.
Variable flag : value.
Variable context : Context.

Lemma selectVariant_not_object (variants : value) :
  get flag (lit "variants") = Normal variants ->
  ToBoolean variants = false \/ typeof variants <> lit "object" ->
  _selectVariant this key flag context = Normal None.
Proof.
  intros Hv Hno. unfold _selectVariant. rewrite Hv. cbn [bind].
  destruct Hno as [Hf | Hty].
  - rewrite Hf. reflexivity.
  - destruct (ustring_eqb (typeof variants) (lit "object")) eqn:E.
    + apply ustring_eqb_eq in E. contradiction.
    + rewrite orb_true_r. reflexivity.
Qed.

Lemma selectVariant_object (variants : value) :
  get flag (lit "variants") = Normal variants ->
  ToBoolean variants = true ->
  typeof variants = lit "object" ->
  entries_defined (own_entries variants) ->
  _selectVariant this key flag context =
  let entries := own_entries variants in
  let total := total_weight entries in
  match entries with
  | [] => Normal None
  | _ :: _ =>
      if num_leb total (Fin 0) then Normal None
      else
        identifier <- identifier_of this flag context ;;
        let bucket := num_rem (Fin (fnv1a (variant_key this key identifier))) total in
        found <- select_loop bucket entries (Fin 0) ;;
        match found with
        | Some name => Normal (Some name)
        | None =>
            last <- last_entry_name entries ;;
            match js_or last VNull with
            | VString name => Normal (Some name)
            | _ => Normal None
            end
        end
  end.
Proof.
  intros Hv Ht Hty Hd. unfold _selectVariant. rewrite Hv. cbn [bind].
  rewrite Ht, Hty, ustring_eqb_refl. cbn [negb orb].
  replace (Object_entries variants) with (Normal (own_entries variants))
    by (destruct variants; try reflexivity; discriminate Ht).
  cbn [bind]. cbv zeta.
  destruct (own_entries variants) as [| e rest] eqn:He; [reflexivity |].
  replace (Z.of_nat (List.length (e :: rest)) =? 0) with false
    by (symmetry; apply Z.eqb_neq; cbn [List.length]; lia).
  rewrite reduce_weights_total by exact Hd. cbn [bind].
  fold (total_weight (e :: rest)).
  destruct (num_leb (total_weight (e :: rest)) (Fin 0)); [reflexivity |].
  destruct (get_not_nullish flag (lit "rollout") (get_Normal_not_nullish _ _ _ Hv))
    as [rollout Hr].
  rewrite Hr. cbn [bind]. unfold js_and, identifier_of.
  destruct (ToBoolean rollout) eqn:Hrt.
  - destruct (get_not_nullish rollout (lit "attribute") (ToBoolean_not_nullish _ Hrt))
      as [ra Ha].
    rewrite Ha. cbn [bind].
    rewrite (bucketing_attribute_rollout this flag rollout ra Hr Hrt Ha).
    destruct (context_get context _) as [v | err]; [| reflexivity]. cbn [bind].
    destruct (ToString (nullish_coalesce v (VString []))) as [identifier | err];
      [| reflexivity].
    cbn [bind]. rewrite hashStringToInt_any. reflexivity.
  - cbn [bind].
    rewrite (bucketing_attribute_no_rollout this flag rollout Hr Hrt).
    unfold js_or at 1. rewrite Hrt.
    destruct (context_get context _) as [v | err]; [| reflexivity]. cbn [bind].
    destruct (ToString (nullish_coalesce v (VString []))) as [identifier | err];
      [| reflexivity].
    cbn [bind]. rewrite hashStringToInt_any. reflexivity.
Qed.

Lemma selectVariant_first_exceeding (variants : value) (identifier name : ustring) :
  get flag (lit "variants") = Normal variants ->
  ToBoolean variants = true ->
  typeof variants = lit "object" ->
  entries_defined (own_entries variants) ->
  num_leb (total_weight (own_entries variants)) (Fin 0) = false ->
  identifier_of this flag context = Normal identifier ->
  first_exceeding
    (num_rem (Fin (fnv1a (variant_key this key identifier)))
       (total_weight (own_entries variants)))
    (own_entries variants) name ->
  _selectVariant this key flag context = Normal (Some name).
Proof.
  intros Hv Ht Hty Hd Hpos Hid (pre & cfg & post & He & Hhit & Hmiss).
  rewrite (selectVariant_object variants Hv Ht Hty Hd). cbv zeta.
  rewrite Hpos, Hid. cbn [bind].
  pose proof (select_loop_found
    (num_rem (Fin (fnv1a (variant_key this key identifier)))
       (total_weight (own_entries variants)))
    pre name cfg post (Fin 0)) as Hloop.
  rewrite <- He in Hloop. rewrite Hloop; [| exact Hd | exact Hhit | exact Hmiss].
  cbn [bind].
  destruct (own_entries variants) eqn:E; [| reflexivity].
  destruct pre; discriminate He.
Qed.

Lemma selectVariant_none_exceeding
  (variants : value) (identifier : ustring)
  (pre : properties) (name : ustring) (cfg : value) :
  get flag (lit "variants") = Normal variants ->
  ToBoolean variants = true ->
  typeof variants = lit "object" ->
  entries_defined (own_entries variants) ->
  num_leb (total_weight (own_entries variants)) (Fin 0) = false ->
  identifier_of this flag context = Normal identifier ->
  none_exceeding
    (num_rem (Fin (fnv1a (variant_key this key identifier)))
       (total_weight (own_entries variants)))
    (own_entries variants) ->
  own_entries variants = pre ++ [(name, cfg)] ->
  _selectVariant this key flag context =
  Normal match name with [] => None | _ :: _ => Some name end.
Proof.
  intros Hv Ht Hty Hd Hpos Hid Hnone He.
  rewrite (selectVariant_object variants Hv Ht Hty Hd). cbv zeta.
  rewrite Hpos, Hid. cbn [bind].
  rewrite (select_loop_none _ _ (Fin 0) Hd Hnone). cbn [bind].
  replace (last_entry_name (own_entries variants)) with (Normal (VString name))
    by (rewrite He; symmetry; apply last_entry_name_snoc).
  cbn [bind].
  destruct (own_entries variants) eqn:E; [destruct pre; discriminate He |].
  destruct name; reflexivity.
Qed.

(** Past its early returns the selector needs the identifier, and throws
    when the identifier has no string. *)
Lemma selectVariant_uncoercible (variants : value) (e : error) :
  get flag (lit "variants") = Normal variants ->
  ToBoolean variants = true ->
  typeof variants = lit "object" ->
  entries_defined (own_entries variants) ->
  own_entries variants <> [] ->
  num_leb (total_weight (own_entries variants)) (Fin 0) = false ->
  identifier_of this flag context = Throw e ->
  _selectVariant this key flag context = Throw e.
Proof.
  intros Hv Ht Hty Hd Hne Hpos Hid.
  rewrite (selectVariant_object variants Hv Ht Hty Hd). cbv zeta.
  rewrite Hpos, Hid.
  destruct (own_entries variants); [contradiction Hne; reflexivity | reflexivity].
Qed.

Lemma NaN_total_none_exceeding (h : Z) (entries : properties) :
  none_exceeding (num_rem (Fin h) NaN) entries.
Proof.
  intros pre e post _. cbn [num_rem].
  destruct (total_weight (pre ++ [e])); reflexivity.
Qed.

Lemma list_eq_nil_dec {A : Type} (l : list A) : {l = []} + {l <> []}.
Proof. destruct l; [left; reflexivity | right; discriminate]. Qed.

Lemma number_eq_NaN_dec (n : number) : {n = NaN} + {n <> NaN}.
Proof. destruct n; (left; reflexivity) || (right; discriminate). Qed.

Lemma first_exceeding_total (str : ustring) (entries : properties) :
  total_weight entries <> NaN ->
  num_leb (total_weight entries) (Fin 0) = false ->
  exists name,
    first_exceeding (num_rem (Fin (fnv1a str)) (total_weight entries)) entries name.
Proof.
  intros Hn Hpos.
  destruct (first_exceeding_exists
              (num_rem (Fin (fnv1a str)) (total_weight entries)) entries (Fin 0)) as
    (pre & name & cfg & post & He & Hhit & Hmiss).
  - apply bucket_not_negative. apply fnv1a_range.
  - apply bucket_below_total; [apply fnv1a_range | exact Hn | exact Hpos].
  - exists name, pre, cfg, post. repeat split; assumption.
Qed.

(** C2, amended. The variant selector returns absent when the flag has no
    variants field, when the field is not an object, when the mapping is
    empty and when the sum of the zero-clamped weights is <= 0; in these
    cases it reads nothing from the context.  Otherwise it resolves the
    identifier from [flag.rollout.attribute] (the client default when the
    rollout or its attribute is absent), hashes
    "seed:variant:flagKey:identifier" with max equal to the total weight,
    and returns the first variant, in the order of [Object.entries],
    whose cumulative weight strictly exceeds the bucket; there is one
    whenever the total is not [NaN].  The order of [Object.entries] lists
    the names that are array indices first, in ascending order, and then
    the other names in the order of the declaration; it is the order of
    the declaration when no name is an array index.  When no cumulative
    weight exceeds the bucket the selector falls back to the name of the
    last variant, which is absent when that name is the empty string.
    When the identifier has no string the selector throws a TypeError.
    So, for an identifier that has a string, absent is returned exactly
    in the four cases above and when the total is [NaN] and the last
    variant has the empty name. *)
Theorem selectVariant_semantics (variants : value) :
  get flag (lit "variants") = Normal variants ->
  let entries := own_entries variants in
  let total := total_weight entries in
  (ToBoolean variants = false \/ typeof variants <> lit "object" \/ entries = [] ->
   _selectVariant this key flag context = Normal None)
  /\ (entries_defined entries -> num_leb total (Fin 0) = true ->
      _selectVariant this key flag context = Normal None)
  /\ (forall ref props,
        variants = VObject ref props ->
        entries = enumeration_order props
        /\ ((forall e, In e props -> array_index (fst e) = None) -> entries = props))
  /\ (ToBoolean variants = true -> typeof variants = lit "object" ->
      entries <> [] -> entries_defined entries -> num_leb total (Fin 0) = false ->
      (forall attribute identifier,
         ToString (bucketing_attribute this flag) = Normal attribute ->
         plain_read context attribute ->
         ToString (nullish_coalesce (own_or_undefined context attribute) (VString []))
         = Normal identifier ->
         let bucket := num_rem (Fin (fnv1a (variant_key this key identifier))) total in
         hashStringToInt (variant_key this key identifier) total = Normal bucket
         /\ (forall name, first_exceeding bucket entries name ->
             _selectVariant this key flag context = Normal (Some name))
         /\ (total <> NaN -> exists name, first_exceeding bucket entries name)
         /\ (total = NaN -> none_exceeding bucket entries)
         /\ (none_exceeding bucket entries ->
             forall pre name cfg, entries = pre ++ [(name, cfg)] ->
             _selectVariant this key flag context =
             Normal match name with [] => None | _ :: _ => Some name end))
      /\ (forall e,
            identifier_of this flag context = Throw e ->
            _selectVariant this key flag context = Throw e))
  /\ (entries_defined entries -> returns (identifier_of this flag context) ->
      (_selectVariant this key flag context = Normal None <->
       ToBoolean variants = false \/ typeof variants <> lit "object" \/ entries = []
       \/ num_leb total (Fin 0) = true
       \/ (total = NaN /\ exists pre cfg, entries = pre ++ [([], cfg)]))).
Proof.
  intros Hv. cbv zeta.
  assert (Hobj : ToBoolean variants = false \/ typeof variants <> lit "object"
                 \/ (ToBoolean variants = true /\ typeof variants = lit "object")).
  { destruct (ToBoolean variants); [| left; reflexivity].
    destruct (ustring_eqb (typeof variants) (lit "object")) eqn:Hty.
    - right. right. split; [reflexivity | apply ustring_eqb_eq; exact Hty].
    - right. left. intros Hty'. rewrite Hty', ustring_eqb_refl in Hty.
      discriminate Hty. }
  assert (Habsent :
    ToBoolean variants = false \/ typeof variants <> lit "object"
    \/ own_entries variants = [] ->
    _selectVariant this key flag context = Normal None).
  { intros [Hc | [Hc | Hc]].
    - apply (selectVariant_not_object variants Hv). left. exact Hc.
    - apply (selectVariant_not_object variants Hv). right. exact Hc.
    - destruct Hobj as [Ho | [Ho | [Ht Hty]]].
      + apply (selectVariant_not_object variants Hv). left. exact Ho.
      + apply (selectVariant_not_object variants Hv). right. exact Ho.
      + assert (Hd : entries_defined (own_entries variants))
          by (rewrite Hc; constructor).
        rewrite (selectVariant_object variants Hv Ht Hty Hd). cbv zeta.
        rewrite Hc. reflexivity. }
  assert (Hzero :
    entries_defined (own_entries variants) ->
    num_leb (total_weight (own_entries variants)) (Fin 0) = true ->
    _selectVariant this key flag context = Normal None).
  { intros Hd Hle. destruct Hobj as [Ho | [Ho | [Ht Hty]]].
    - apply Habsent. left. exact Ho.
    - apply Habsent. right. left. exact Ho.
    - rewrite (selectVariant_object variants Hv Ht Hty Hd). cbv zeta.
      rewrite Hle. destruct (own_entries variants); reflexivity. }
  split; [exact Habsent |]. split; [exact Hzero |]. split.
  { intros ref props ->. split; [reflexivity |].
    intros Hplain. apply enumeration_order_plain. exact Hplain. }
  split.
  { intros Ht Hty Hne Hd Hpos. split.
    - intros attribute identifier Hk _ Hcoerce.
      assert (Hid : identifier_of this flag context = Normal identifier)
        by (rewrite (identifier_of_name this context flag attribute Hk); exact Hcoerce).
      split; [apply hashStringToInt_any |].
      split; [intros name;
              apply (selectVariant_first_exceeding variants identifier); assumption |].
      split; [intros Hn; apply first_exceeding_total; assumption |].
      split.
      + intros Hnan. rewrite Hnan. apply NaN_total_none_exceeding.
      + intros Hnone pre name cfg He.
        apply (selectVariant_none_exceeding variants identifier pre name cfg);
          assumption.
    - intros e Hid. apply (selectVariant_uncoercible variants); assumption. }
  intros Hd [identifier Hid]. split.
  - intros Hres.
    destruct Hobj as [Ho | [Ho | [Ht Hty]]]; [left; exact Ho | right; left; exact Ho |].
    right. right.
    destruct (list_eq_nil_dec (own_entries variants)) as [Hnil | Hne];
      [left; exact Hnil | right].
    destruct (num_leb (total_weight (own_entries variants)) (Fin 0)) eqn:Hpos;
      [left; reflexivity | right].
    assert (Hnan : total_weight (own_entries variants) = NaN).
    { destruct (number_eq_NaN_dec (total_weight (own_entries variants)))
        as [Hn | Hn]; [exact Hn |].
      destruct (first_exceeding_total (variant_key this key identifier) _ Hn Hpos)
        as [name Hname].
      rewrite (selectVariant_first_exceeding variants identifier name
                 Hv Ht Hty Hd Hpos Hid Hname) in Hres.
      discriminate Hres. }
    split; [exact Hnan |].
    destruct (exists_last Hne) as [pre [[name cfg] Hlast]].
    rewrite (selectVariant_none_exceeding variants identifier pre name cfg
               Hv Ht Hty Hd Hpos Hid) in Hres.
    + destruct name; [| discriminate Hres]. exists pre, cfg. exact Hlast.
    + rewrite Hnan. apply NaN_total_none_exceeding.
    + exact Hlast.
  - intros [Hc | [Hc | [Hc | [Hc | [Hnan [pre [cfg He]]]]]]].
    + apply Habsent. left. exact Hc.
    + apply Habsent. right. left. exact Hc.
    + apply Habsent. right. right. exact Hc.
    + apply Hzero; assumption.
    + destruct Hobj as [Ho | [Ho | [Ht Hty]]].
      * apply Habsent. left. exact Ho.
      * apply Habsent. right. left. exact Ho.
      * rewrite (selectVariant_none_exceeding variants identifier pre [] cfg
                   Hv Ht Hty Hd).
        -- reflexivity.
        -- rewrite Hnan. reflexivity.
        -- exact Hid.
        -- rewrite Hnan. apply NaN_total_none_exceeding.
        -- exact He.
Qed.

End VariantSelector.

(** C2, as the claim states it, fails.  The variants
    [{"": {weight: NaN}}] are a non-empty object whose total weight,
    [NaN], is not <= 0, and the selector returns absent.  The variants
    [{b: {weight: 1}, "1": {weight: 1}}] are walked from "1": for a
    subject of bucket 0 the selector returns "1", although "b" is the
    first variant in declaration order whose cumulative weight exceeds
    the bucket.  And for the subject [{userId: {toString: 1}}], whose
    identifier has no string coercion, the selector throws. *)
Lemma selectVariant_absent_on_NaN_weight :
  let variants := Sample.obj 45 [(""%string, Sample.obj 46 [("weight"%string, VNumber NaN)])] in
  let declared := [(lit "b", Sample.obj 62 [("weight"%string, Sample.num 1)]);
                   (lit "1", Sample.obj 63 [("weight"%string, Sample.num 1)])] in
  let flag := VObject 60 [(lit "enabled", VBoolean true);
                          (lit "variants", VObject 61 declared)] in
  let bucket :=
    num_rem (Fin (fnv1a (variant_key Sample.ff (lit "order") (lit "user-2")))) (Fin 2) in
  let unnamed := MoreSamples.user_value (VObject 80 [(lit "toString", VNumber (Fin 1))]) in
  (get Sample.flag_nan_weight (lit "variants") = Normal variants
   /\ ToBoolean variants = true
   /\ typeof variants = lit "object"
   /\ own_entries variants <> []
   /\ num_leb (total_weight (own_entries variants)) (Fin 0) = false
   /\ _selectVariant Sample.ff (lit "nan-weight") Sample.flag_nan_weight
        (Sample.user "user-1") = Normal None)
  /\ (_selectVariant Sample.ff (lit "order") flag (Sample.user "user-2")
      = Normal (Some (lit "1"))
      /\ total_weight declared = Fin 2
      /\ bucket = Fin 0
      /\ first_exceeding bucket declared (lit "b"))
  /\ _selectVariant Sample.ff (lit "checkout") Sample.flag_checkout unnamed
     = Throw TypeError.
Proof.
  cbv zeta. split; [| split].
  - split; [reflexivity |]. split; [reflexivity |]. split; [reflexivity |].
    split; [discriminate |]. split; reflexivity.
  - split; [vm_compute; reflexivity |]. split; [reflexivity |].
    split; [vm_compute; reflexivity |].
    exists [], (Sample.obj 62 [("weight"%string, Sample.num 1)]),
      [(lit "1", Sample.obj 63 [("weight"%string, Sample.num 1)])].
    split; [reflexivity |]. split; [vm_compute; reflexivity |].
    intros pre1 e pre2 Hpre. destruct pre1; discriminate Hpre.
  - vm_compute. reflexivity.
Qed.

Lemma selectVariant_semantics_witness :
  get Sample.flag_checkout (lit "variants")
  = Normal (Sample.obj 22 [("control", Sample.obj 23 [("weight", Sample.num 50)]);
                           ("variantA", Sample.obj 24 [("weight", Sample.num 25)]);
                           ("variantB", Sample.obj 25 [("weight", Sample.num 25)])]%string)
  /\ _selectVariant Sample.ff (lit "checkout") Sample.flag_checkout
       (Sample.user "user-2") = Normal (Some (lit "variantB")).
Proof.
  split; [reflexivity |].
  destruct (selectVariant_semantics Sample.ff (lit "checkout") Sample.flag_checkout
              (Sample.user "user-2")
              (Sample.obj 22 [("control", Sample.obj 23 [("weight", Sample.num 50)]);
                              ("variantA", Sample.obj 24 [("weight", Sample.num 25)]);
                              ("variantB", Sample.obj 25 [("weight", Sample.num 25)])]%string)
              eq_refl) as (_ & _ & _ & Hsel & _).
  destruct Hsel as (Hsel & _).
  - reflexivity.
  - reflexivity.
  - discriminate.
  - repeat constructor; intros [E | E]; discriminate E.
  - reflexivity.
  - destruct (Hsel (lit "userId") (lit "user-2")) as (_ & Hfirst & _).
    + reflexivity.
    + left. left. reflexivity.
    + reflexivity.
    + apply Hfirst.
      exists [(lit "control", Sample.obj 23 [("weight", Sample.num 50)]%string);
              (lit "variantA", Sample.obj 24 [("weight", Sample.num 25)]%string)],
             (Sample.obj 25 [("weight", Sample.num 25)]%string), [].
      split; [reflexivity |]. split; [vm_compute; reflexivity |].
      intros pre1 e pre2 Hpre.
      destruct pre1 as [| e1 [| e2 [| e3 pre1]]]; cbn [app] in Hpre.
      * injection Hpre as <- _. vm_compute. reflexivity.
      * injection Hpre as <- <- _. vm_compute. reflexivity.
      * injection Hpre as _ _ Hnil. destruct pre2; discriminate Hnil.
      * injection Hpre as _ _ Hnil. destruct pre1; discriminate Hnil.
Defined.

(** ** Totality of [evaluate] *)

Lemma select_loop_returns (bucket : number) (entries : properties) (acc : number) :
  entries_defined entries -> returns (select_loop bucket entries acc).
Proof.
  intros Hd. revert acc. induction Hd as [| [name cfg] rest Hc _ IH]; intros acc.
  - eexists. reflexivity.
  - rewrite select_loop_cons by exact Hc.
    destruct (num_ltb bucket (cumulative_weight acc [(name, cfg)])).
    + eexists. reflexivity.
    + apply IH.
Qed.

Section Totality.

Context {S : Type} `{FlagStore S}.
Variable this : FeatureFlagClient S.
Variable key : ustring.
Variable context : Context.

Lemma isInRollout_returns (fl : value) :
  ~ nullish fl ->
  returns (identifier_of this fl context) ->
  returns (isInRollout this key fl context).
Proof.
  intros Hfl [identifier Hid].
  destruct (get_not_nullish fl (lit "rollout") Hfl) as [rollout Hr].
  destruct (ToBoolean rollout) eqn:Ht.
  - destruct (get_not_nullish rollout (lit "percentage") (ToBoolean_not_nullish _ Ht))
      as [p Hp].
    destruct p as [| | b | n | s | r xs | r ps];
      try (rewrite (isInRollout_not_number this key context fl rollout _ Hr Ht Hp)
             by discriminate; eexists; reflexivity).
    rewrite (isInRollout_number this key context fl rollout n Hr Ht Hp), Hid.
    destruct (num_eqb (clamp_percentage n) (Fin 0)); [eexists; reflexivity |].
    destruct (num_ltb (clamp_percentage n) (Fin 100)); eexists; reflexivity.
  - rewrite (isInRollout_no_rollout this key context fl rollout Hr Ht).
    eexists. reflexivity.
Qed.

Lemma selectVariant_returns (fl variants : value) :
  get fl (lit "variants") = Normal variants ->
  entries_defined (own_entries variants) ->
  returns (identifier_of this fl context) ->
  returns (_selectVariant this key fl context).
Proof.
  intros Hv Hd [identifier Hid].
  destruct (ToBoolean variants) eqn:Ht.
  2:{ rewrite (selectVariant_not_object this key fl context variants Hv)
        by (left; exact Ht).
      eexists. reflexivity. }
  destruct (ustring_eqb (typeof variants) (lit "object")) eqn:Hty.
  2:{ rewrite (selectVariant_not_object this key fl context variants Hv).
      - eexists. reflexivity.
      - right. intros Hty'. rewrite Hty', ustring_eqb_refl in Hty. discriminate Hty. }
  apply ustring_eqb_eq in Hty.
  rewrite (selectVariant_object this key fl context variants Hv Ht Hty Hd). cbv zeta.
  rewrite Hid. cbn [bind].
  destruct (list_eq_nil_dec (own_entries variants)) as [Hnil | Hne].
  { rewrite Hnil. eexists. reflexivity. }
  destruct (exists_last Hne) as [pre [[name cfg] Hlast]].
  replace (last_entry_name (own_entries variants)) with (Normal (VString name))
    by (rewrite Hlast; symmetry; apply last_entry_name_snoc).
  destruct (select_loop_returns
              (num_rem (Fin (fnv1a (variant_key this key identifier)))
                 (total_weight (own_entries variants)))
              (own_entries variants) (Fin 0) Hd) as [found Hfound].
  rewrite Hfound. cbn [bind].
  destruct (own_entries variants); [eexists; reflexivity |].
  destruct (num_leb _ _); [eexists; reflexivity |].
  destruct found; [eexists; reflexivity |].
  destruct name; eexists; reflexivity.
Qed.

Lemma conditions_gate_returns (fl : value) :
  ~ nullish fl ->
  (forall ref conditions,
     get fl (lit "conditions") = Normal (VArray ref conditions) ->
     Forall condition_defined conditions) ->
  returns (conditions_gate fl context).
Proof.
  intros Hfl Hconds. unfold conditions_gate.
  destruct (get_not_nullish fl (lit "conditions") Hfl) as [conditions Hc].
  rewrite Hc. cbn [bind].
  destruct conditions as [| | b | n | s | r xs | r ps];
    try (eexists; reflexivity).
  cbn [Array_isArray array_elems andb].
  destruct (0 <? Z.of_nat (List.length xs)); [| eexists; reflexivity].
  rewrite evaluateConditions_forallb by exact (Hconds r xs Hc).
  eexists. reflexivity.
Qed.

(** [evaluate] returns a result whenever the entries of the flag's
    conditions array are defined (none is [undefined] or [null], and the
    attribute of each names a property), no entry of its variants mapping
    is [undefined] or [null], and the identifier of the subject has a
    string. *)
Theorem evaluate_returns_on_defined_entries :
  let fl := getFlag (store this) key in
  (forall ref conditions,
     get fl (lit "conditions") = Normal (VArray ref conditions) ->
     Forall condition_defined conditions) ->
  (forall variants,
     get fl (lit "variants") = Normal variants ->
     entries_defined (own_entries variants)) ->
  returns (identifier_of this fl context) ->
  returns (evaluate this key context).
Proof.
  intros fl Hconds Hvariants Hid. rewrite evaluate_pipeline. cbv zeta. fold fl.
  destruct (ToBoolean fl) eqn:Ht; cbn [negb]; [| eexists; reflexivity].
  pose proof (ToBoolean_not_nullish _ Ht) as Hfl.
  destruct (get_not_nullish fl (lit "enabled") Hfl) as [en Hen].
  rewrite Hen. cbn [bind].
  destruct (ToBoolean en); cbn [negb]; [| eexists; reflexivity].
  destruct (conditions_gate_returns fl Hfl Hconds) as [passes Hp].
  rewrite Hp. cbn [bind].
  destruct passes; cbn [negb]; [| eexists; reflexivity].
  destruct (isInRollout_returns fl Hfl Hid) as [inside Hin].
  rewrite Hin. cbn [bind].
  destruct inside; cbn [negb]; [| eexists; reflexivity].
  destruct (get_not_nullish fl (lit "variants") Hfl) as [variants Hv].
  destruct (selectVariant_returns fl variants Hv (Hvariants variants Hv) Hid)
    as [v Hsel].
  rewrite Hsel. eexists. reflexivity.
Qed.

End Totality.

(** C8. [evaluate] is not total on malformed flag data: a [null] entry in
    the variants mapping, and a [null] entry in the conditions array,
    make it throw a [TypeError] ([cfg.weight] and [cond.attribute] are
    read without a guard). *)
Theorem evaluate_throws_on_null_entries :
  getFlag (store Sample.ff) (lit "null-variant") = Sample.flag_null_variant
  /\ evaluate Sample.ff (lit "null-variant") (Sample.user "user-1") = Throw TypeError
  /\ getFlag (store Sample.ff) (lit "null-condition") = Sample.flag_null_condition
  /\ evaluate Sample.ff (lit "null-condition") (Sample.user "user-1") = Throw TypeError.
Proof. repeat split. Qed.

Lemma evaluate_returns_on_defined_entries_witness :
  returns (evaluate Sample.ff (lit "checkout") (Sample.user "user-2")).
Proof.
  apply (evaluate_returns_on_defined_entries Sample.ff (lit "checkout")
           (Sample.user "user-2")).
  - intros ref conditions Hc. discriminate Hc.
  - intros variants Hv. injection Hv as <-.
    repeat constructor; intros [E | E]; discriminate E.
  - exists (lit "user-2"). reflexivity.
Defined.

(** ** Scenarios *)

(** A flag rolled out to 0% is disabled for every context. *)
Example scenario_rollout_0 (context : Context) :
  isEnabled Sample.ff (lit "none") context = Normal false.
Proof. reflexivity. Qed.

(** A flag rolled out to 100%, with no conditions and no variants, is
    enabled for every context and has no variant. *)
Example scenario_rollout_100 (context : Context) :
  isEnabled Sample.ff (lit "all") context = Normal true
  /\ getVariant Sample.ff (lit "all") context = Normal None.
Proof. split; reflexivity. Qed.

(** A flag restricted to the plan "pro" is disabled for the plan "free"
    and enabled for the plan "pro". *)
Example scenario_condition :
  isEnabled Sample.ff (lit "pro-only") [(lit "plan", Sample.str "free")] = Normal false
  /\ isEnabled Sample.ff (lit "pro-only") [(lit "plan", Sample.str "pro")] = Normal true.
Proof. split; reflexivity. Qed.

(** The A/B example: the users are spread over the variants. *)
Example scenario_variants :
  getVariant Sample.ff (lit "checkout") (Sample.user "user-42") = Normal (Some (lit "control"))
  /\ getVariant Sample.ff (lit "checkout") (Sample.user "user-2")
     = Normal (Some (lit "variantB")).
Proof. split; vm_compute; reflexivity. Qed.

(** A key the store does not hold evaluates to disabled, with no flag. *)
Example scenario_absent (context : Context) :
  evaluate Sample.ff (lit "unknown") context
  = Normal {| enabled := false; variant := None; flag := None |}.
Proof. reflexivity. Qed.

(* ================================================================== *)
(** * Part III: the store, and the client over it *)
(* ================================================================== *)

(** ** Property lists *)

Lemma ustring_eqb_neq (a b : ustring) : ustring_eqb a b = false <-> a <> b.
Proof.
  split.
  - intros E Hab. apply ustring_eqb_eq in Hab. rewrite Hab in E. discriminate E.
  - intros Hab. destruct (ustring_eqb a b) eqn:E; [| reflexivity].
    apply ustring_eqb_eq in E. contradiction.
Qed.

Lemma lookup_None_iff (name : ustring) (props : properties) :
  lookup name props = None <-> ~ In name (keys props).
Proof.
  induction props as [| [k v] rest IH]; cbn [lookup keys map fst In].
  - tauto.
  - destruct (ustring_eqb k name) eqn:E.
    + apply ustring_eqb_eq in E. split; [discriminate | intros Hn; exfalso; auto].
    + apply ustring_eqb_neq in E. fold (keys rest). rewrite IH. tauto.
Qed.

Lemma lookup_set_prop_same (key : ustring) (v : value) (props : properties) :
  lookup key (InMemoryFlagStore.set_prop key v props) = Some v.
Proof.
  induction props as [| [k w] rest IH]; cbn [InMemoryFlagStore.set_prop lookup].
  - rewrite ustring_eqb_refl. reflexivity.
  - destruct (ustring_eqb k key) eqn:E; cbn [lookup]; rewrite E; [reflexivity | exact IH].
Qed.

Lemma lookup_set_prop_other (key other : ustring) (v : value) (props : properties) :
  other <> key ->
  lookup other (InMemoryFlagStore.set_prop key v props) = lookup other props.
Proof.
  intros Hne.
  induction props as [| [k w] rest IH]; cbn [InMemoryFlagStore.set_prop lookup].
  - replace (ustring_eqb key other) with false; [reflexivity |].
    symmetry. apply ustring_eqb_neq. congruence.
  - destruct (ustring_eqb k key) eqn:E; cbn [lookup].
    + apply ustring_eqb_eq in E. subst k.
      replace (ustring_eqb key other) with false; [reflexivity |].
      symmetry. apply ustring_eqb_neq. congruence.
    + destruct (ustring_eqb k other); [reflexivity | exact IH].
Qed.

Lemma keys_delete_prop_subset (key name : ustring) (props : properties) :
  In name (keys (InMemoryFlagStore.delete_prop key props)) -> In name (keys props).
Proof.
  induction props as [| [k w] rest IH]; cbn [InMemoryFlagStore.delete_prop keys map fst].
  - tauto.
  - destruct (ustring_eqb k key); cbn [keys map fst In]; fold (keys rest).
    + tauto.
    + fold (keys (InMemoryFlagStore.delete_prop key rest)). tauto.
Qed.

Lemma lookup_delete_prop_same (key : ustring) (props : properties) :
  keys_unique props ->
  lookup key (InMemoryFlagStore.delete_prop key props) = None.
Proof.
  unfold keys_unique.
  induction props as [| [k w] rest IH]; cbn [InMemoryFlagStore.delete_prop keys map fst];
    intros Hu.
  - reflexivity.
  - fold (keys rest) in Hu. inversion Hu as [| ? ? Hnotin Hrest]; subst.
    destruct (ustring_eqb k key) eqn:E.
    + apply ustring_eqb_eq in E. subst k. apply lookup_None_iff. exact Hnotin.
    + cbn [lookup]. rewrite E. apply IH. exact Hrest.
Qed.

Lemma lookup_delete_prop_other (key other : ustring) (props : properties) :
  other <> key ->
  lookup other (InMemoryFlagStore.delete_prop key props) = lookup other props.
Proof.
  intros Hne.
  induction props as [| [k w] rest IH]; cbn [InMemoryFlagStore.delete_prop lookup].
  - reflexivity.
  - destruct (ustring_eqb k key) eqn:E; cbn [lookup].
    + apply ustring_eqb_eq in E. subst k.
      replace (ustring_eqb key other) with false; [reflexivity |].
      symmetry. apply ustring_eqb_neq. congruence.
    + destruct (ustring_eqb k other); [reflexivity | exact IH].
Qed.

Lemma keys_set_prop_present (key : ustring) (v : value) (props : properties) :
  In key (keys props) -> keys (InMemoryFlagStore.set_prop key v props) = keys props.
Proof.
  induction props as [| [k w] rest IH];
    cbn [InMemoryFlagStore.set_prop keys map fst In]; intros Hin.
  - contradiction.
  - destruct (ustring_eqb k key) eqn:E; cbn [keys map fst]; [reflexivity |].
    apply ustring_eqb_neq in E. fold (keys rest) in *.
    fold (keys (InMemoryFlagStore.set_prop key v rest)).
    rewrite IH; [reflexivity |]. destruct Hin as [Hk | Hin]; [contradiction | exact Hin].
Qed.

Lemma keys_set_prop_absent (key : ustring) (v : value) (props : properties) :
  ~ In key (keys props) ->
  InMemoryFlagStore.set_prop key v props = props ++ [(key, v)].
Proof.
  induction props as [| [k w] rest IH];
    cbn [InMemoryFlagStore.set_prop keys map fst In app]; intros Hnot.
  - reflexivity.
  - destruct (ustring_eqb k key) eqn:E.
    + apply ustring_eqb_eq in E. exfalso. apply Hnot. left. exact E.
    + fold (keys rest) in Hnot. rewrite IH; [reflexivity | tauto].
Qed.

Lemma delete_prop_absent (key : ustring) (props : properties) :
  ~ In key (keys props) -> InMemoryFlagStore.delete_prop key props = props.
Proof.
  induction props as [| [k w] rest IH];
    cbn [InMemoryFlagStore.delete_prop keys map fst In]; intros Hnot.
  - reflexivity.
  - destruct (ustring_eqb k key) eqn:E.
    + apply ustring_eqb_eq in E. exfalso. apply Hnot. left. exact E.
    + fold (keys rest) in Hnot. rewrite IH; [reflexivity | tauto].
Qed.

Lemma delete_prop_snoc (key : ustring) (v : value) (props : properties) :
  ~ In key (keys props) ->
  InMemoryFlagStore.delete_prop key (props ++ [(key, v)]) = props.
Proof.
  induction props as [| [k w] rest IH];
    cbn [InMemoryFlagStore.delete_prop keys map fst In app]; intros Hnot.
  - rewrite ustring_eqb_refl. reflexivity.
  - destruct (ustring_eqb k key) eqn:E.
    + apply ustring_eqb_eq in E. exfalso. apply Hnot. left. exact E.
    + fold (keys rest) in Hnot. rewrite IH; [reflexivity | tauto].
Qed.

Lemma set_prop_unique (key : ustring) (v : value) (props : properties) :
  keys_unique props -> keys_unique (InMemoryFlagStore.set_prop key v props).
Proof.
  unfold keys_unique. intros Hu.
  destruct (in_dec (list_eq_dec Z.eq_dec) key (keys props)) as [Hin | Hnot].
  - rewrite keys_set_prop_present by exact Hin. exact Hu.
  - rewrite keys_set_prop_absent by exact Hnot. unfold keys. rewrite map_app.
    cbn [map fst]. apply NoDup_app; [exact Hu | repeat constructor; intros [] |].
    intros x Hx [<- | []]. apply Hnot. exact Hx.
Qed.

Lemma delete_prop_unique (key : ustring) (props : properties) :
  keys_unique props -> keys_unique (InMemoryFlagStore.delete_prop key props).
Proof.
  unfold keys_unique.
  induction props as [| [k w] rest IH];
    cbn [InMemoryFlagStore.delete_prop keys map fst]; intros Hu.
  - constructor.
  - fold (keys rest) in Hu. inversion Hu as [| ? ? Hnotin Hrest]; subst.
    destruct (ustring_eqb k key); [exact Hrest |].
    cbn [keys map fst]. fold (keys (InMemoryFlagStore.delete_prop key rest)).
    constructor; [| apply IH; exact Hrest].
    intros Hin. apply Hnotin. apply (keys_delete_prop_subset key). exact Hin.
Qed.

Lemma set_prop_set_prop (key : ustring) (v w : value) (props : properties) :
  InMemoryFlagStore.set_prop key w (InMemoryFlagStore.set_prop key v props)
  = InMemoryFlagStore.set_prop key w props.
Proof.
  induction props as [| [k u] rest IH]; cbn [InMemoryFlagStore.set_prop].
  - rewrite ustring_eqb_refl. reflexivity.
  - destruct (ustring_eqb k key) eqn:E; cbn [InMemoryFlagStore.set_prop]; rewrite E.
    + reflexivity.
    + rewrite IH. reflexivity.
Qed.

(** ** Enumeration order, continued *)

Lemma insert_entry_permutation (e : ustring * value) (sorted : properties) :
  Permutation (insert_entry e sorted) (e :: sorted).
Proof.
  induction sorted as [| e' rest IH]; cbn [insert_entry]; [reflexivity |].
  destruct (index_of e <=? index_of e'); [reflexivity |].
  rewrite IH. apply perm_swap.
Qed.

Lemma filter_permutation {A : Type} (f : A -> bool) (l : list A) :
  Permutation (filter f l ++ filter (fun x => negb (f x)) l) l.
Proof.
  induction l as [| a l IH]; cbn [filter]; [reflexivity |].
  destruct (f a); cbn [negb app].
  - constructor. exact IH.
  - rewrite <- Permutation_middle. constructor. exact IH.
Qed.

(** Enumeration lists every own property once. *)
Lemma enumeration_order_permutation (props : properties) :
  Permutation (enumeration_order props) props.
Proof.
  unfold enumeration_order.
  rewrite <- (filter_permutation is_index props) at 3.
  apply Permutation_app_tail.
  induction (filter is_index props) as [| e rest IH]; cbn [fold_right]; [reflexivity |].
  rewrite insert_entry_permutation. constructor. exact IH.
Qed.

Lemma keys_enumeration_order_In (props : properties) (name : ustring) :
  In name (keys (enumeration_order props)) <-> In name (keys props).
Proof.
  unfold keys. split; apply Permutation_in, Permutation_map.
  - apply enumeration_order_permutation.
  - symmetry. apply enumeration_order_permutation.
Qed.

Lemma enumeration_order_snoc (props : properties) (name : ustring) (v : value) :
  array_index name = None ->
  enumeration_order (props ++ [(name, v)]) = enumeration_order props ++ [(name, v)].
Proof.
  intros Hname. unfold enumeration_order. rewrite !filter_app. cbn [filter].
  unfold is_index at 2 4. cbn [fst]. rewrite Hname. cbn [negb].
  rewrite app_nil_r, app_assoc. reflexivity.
Qed.

Lemma same_names_keys (l l' : properties) :
  Forall2 (fun a b => fst a = fst b) l l' -> keys l = keys l'.
Proof.
  induction 1 as [| a b l l' Hab _ IH]; [reflexivity |].
  cbn [keys map]. fold (keys l) (keys l'). rewrite Hab, IH. reflexivity.
Qed.

Lemma same_names_filter (f : ustring * value -> bool) (l l' : properties) :
  (forall a b, fst a = fst b -> f a = f b) ->
  Forall2 (fun a b => fst a = fst b) l l' ->
  Forall2 (fun a b => fst a = fst b) (filter f l) (filter f l').
Proof.
  intros Hf. induction 1 as [| a b l l' Hab _ IH]; cbn [filter]; [constructor |].
  rewrite (Hf a b Hab). destruct (f b); [constructor; assumption | exact IH].
Qed.

Lemma same_names_insert (e e' : ustring * value) (s s' : properties) :
  fst e = fst e' ->
  Forall2 (fun a b => fst a = fst b) s s' ->
  Forall2 (fun a b => fst a = fst b) (insert_entry e s) (insert_entry e' s').
Proof.
  intros He. induction 1 as [| a b s s' Hab Hs IH]; cbn [insert_entry].
  - constructor; [exact He | constructor].
  - unfold index_of. rewrite He, Hab.
    destruct (_ <=? _).
    + constructor; [exact He |]. constructor; assumption.
    + constructor; [exact Hab | exact IH].
Qed.

Lemma same_names_enumeration_order (l l' : properties) :
  Forall2 (fun a b => fst a = fst b) l l' ->
  Forall2 (fun a b => fst a = fst b) (enumeration_order l) (enumeration_order l').
Proof.
  intros Hl. unfold enumeration_order. apply Forall2_app.
  - assert (Hidx : Forall2 (fun a b => fst a = fst b)
                     (filter is_index l) (filter is_index l')).
    { apply same_names_filter; [| exact Hl].
      intros a b Hab. unfold is_index. rewrite Hab. reflexivity. }
    induction Hidx as [| a b s s' Hab _ IH]; cbn [fold_right]; [constructor |].
    apply same_names_insert; assumption.
  - apply same_names_filter; [| exact Hl].
    intros a b Hab. unfold is_index. rewrite Hab. reflexivity.
Qed.

Lemma set_prop_same_names (key : ustring) (v : value) (props : properties) :
  In key (keys props) ->
  Forall2 (fun a b => fst a = fst b) (InMemoryFlagStore.set_prop key v props) props.
Proof.
  assert (Hrefl : forall l : properties, Forall2 (fun a b => fst a = fst b) l l)
    by (induction l; constructor; auto).
  induction props as [| [k w] rest IH];
    cbn [InMemoryFlagStore.set_prop keys map fst In]; intros Hin.
  - contradiction.
  - destruct (ustring_eqb k key) eqn:E.
    + constructor; [reflexivity | apply Hrefl].
    + constructor; [reflexivity |]. apply IH.
      apply ustring_eqb_neq in E. destruct Hin as [Hk | Hin]; [contradiction | exact Hin].
Qed.

(** ** The in-memory store *)

Lemma upsertFlag_own (st : InMemoryFlagStore.t) (key : ustring) (config : value) :
  key <> lit "__proto__" \/ In key (keys (InMemoryFlagStore._flags st)) ->
  InMemoryFlagStore.upsertFlag st key config
  = {| InMemoryFlagStore._flags :=
         InMemoryFlagStore.set_prop key config (InMemoryFlagStore._flags st);
       InMemoryFlagStore._proto := InMemoryFlagStore._proto st |}.
Proof.
  intros Hk. unfold InMemoryFlagStore.upsertFlag.
  destruct Hk as [Hk | Hk].
  - apply ustring_eqb_neq in Hk. rewrite Hk. reflexivity.
  - destruct (lookup key (InMemoryFlagStore._flags st)) eqn:Hl.
    + rewrite andb_false_r. reflexivity.
    + apply lookup_None_iff in Hl. contradiction.
Qed.

Section Store.

Variable st : InMemoryFlagStore.t.
Variable key : ustring.

(** After [upsertFlag(key, config)], for a key other than "__proto__",
    [getFlag(key)] is [config], whole, and [getFlag] of every other key
    is what it was. *)
Theorem getFlag_upsertFlag (config : value) :
  key <> lit "__proto__" ->
  InMemoryFlagStore.getFlag (InMemoryFlagStore.upsertFlag st key config) key = config
  /\ (forall other, other <> key ->
      InMemoryFlagStore.getFlag (InMemoryFlagStore.upsertFlag st key config) other
      = InMemoryFlagStore.getFlag st other).
Proof.
  intros Hk. rewrite upsertFlag_own by (left; exact Hk).
  unfold InMemoryFlagStore.getFlag.
  cbn [InMemoryFlagStore._flags InMemoryFlagStore._proto]. split.
  - rewrite lookup_set_prop_same. reflexivity.
  - intros other Hne. rewrite lookup_set_prop_other by exact Hne. reflexivity.
Qed.


(** [upsertFlag] and the order in which [getAllFlags] lists the flags: a
    key the store holds keeps its place; a new key that is neither an
    array index nor "__proto__" goes last. *)
Theorem getAllFlags_upsertFlag (config : value) :
  (In key (keys (InMemoryFlagStore.getAllFlags st)) ->
   keys (InMemoryFlagStore.getAllFlags (InMemoryFlagStore.upsertFlag st key config))
   = keys (InMemoryFlagStore.getAllFlags st))
  /\ (array_index key = None ->
      key <> lit "__proto__" ->
      ~ In key (keys (InMemoryFlagStore.getAllFlags st)) ->
      InMemoryFlagStore.getAllFlags (InMemoryFlagStore.upsertFlag st key config)
      = InMemoryFlagStore.getAllFlags st ++ [(key, config)]).
Proof.
  unfold InMemoryFlagStore.getAllFlags. split.
  - intros Hin. apply (proj1 (keys_enumeration_order_In _ _)) in Hin.
    rewrite upsertFlag_own by (right; exact Hin). cbn [InMemoryFlagStore._flags].
    apply same_names_keys, same_names_enumeration_order, set_prop_same_names.
    exact Hin.
  - intros Hidx Hk Hnot. rewrite keys_enumeration_order_In in Hnot.
    rewrite upsertFlag_own by (left; exact Hk). cbn [InMemoryFlagStore._flags].
    rewrite keys_set_prop_absent by exact Hnot.
    apply enumeration_order_snoc. exact Hidx.
Qed.

(** Of two [upsertFlag] calls on one key other than "__proto__" the
    second wins: the store is the one the second call alone would
    leave. *)
Theorem upsertFlag_twice (first second : value) :
  key <> lit "__proto__" ->
  InMemoryFlagStore.upsertFlag (InMemoryFlagStore.upsertFlag st key first) key second
  = InMemoryFlagStore.upsertFlag st key second.
Proof.
  intros Hk. rewrite !upsertFlag_own by (left; exact Hk).
  cbn [InMemoryFlagStore._flags InMemoryFlagStore._proto].
  rewrite set_prop_set_prop. reflexivity.
Qed.

(** For a key the store does not hold, [deleteFlag] changes nothing, and
    it undoes an [upsertFlag] of that key when the key is not
    "__proto__". *)
Theorem deleteFlag_absent_key (config : value) :
  ~ In key (keys (InMemoryFlagStore.getAllFlags st)) ->
  InMemoryFlagStore.deleteFlag st key = st
  /\ (key <> lit "__proto__" ->
      InMemoryFlagStore.deleteFlag (InMemoryFlagStore.upsertFlag st key config) key = st).
Proof.
  unfold InMemoryFlagStore.getAllFlags. rewrite keys_enumeration_order_In.
  intros Hnot. split.
  - destruct st as [flags proto]. unfold InMemoryFlagStore.deleteFlag.
    cbn [InMemoryFlagStore._flags InMemoryFlagStore._proto] in *.
    rewrite delete_prop_absent by exact Hnot. reflexivity.
  - intros Hk. rewrite upsertFlag_own by (left; exact Hk).
    destruct st as [flags proto]. unfold InMemoryFlagStore.deleteFlag.
    cbn [InMemoryFlagStore._flags InMemoryFlagStore._proto] in *.
    rewrite keys_set_prop_absent by exact Hnot.
    rewrite delete_prop_snoc by exact Hnot. reflexivity.
Qed.

(** A write to the key "__proto__", in a store that does not own that
    key and whose prototype has not been replaced, adds no flag: a
    definition that is not an object is dropped, and the properties of a
    definition that is an object are then read as flags of the store
    under the keys the store does not hold. *)
Theorem upsertFlag_proto_key (config : value) :
  lookup (lit "__proto__") (InMemoryFlagStore._flags st) = None ->
  InMemoryFlagStore._proto st = InMemoryFlagStore.ObjectPrototype ->
  let st' := InMemoryFlagStore.upsertFlag st (lit "__proto__") config in
  InMemoryFlagStore.getAllFlags st' = InMemoryFlagStore.getAllFlags st
  /\ (InMemoryFlagStore.accepted_as_prototype config = false -> st' = st)
  /\ (forall ref props name v,
        config = VObject ref props ->
        lookup name (InMemoryFlagStore._flags st) = None ->
        lookup name props = Some v ->
        InMemoryFlagStore.getFlag st' name = v).
Proof.
  intros Hown Hproto. cbv zeta. unfold InMemoryFlagStore.upsertFlag.
  rewrite Hown, Hproto, ustring_eqb_refl.
  cbn [andb InMemoryFlagStore.reaches_proto_setter].
  split; [| split].
  - destruct (InMemoryFlagStore.accepted_as_prototype config); reflexivity.
  - intros ->. reflexivity.
  - intros ref props name v -> Hname Hv.
    cbn [InMemoryFlagStore.accepted_as_prototype].
    unfold InMemoryFlagStore.getFlag.
    cbn [InMemoryFlagStore._flags InMemoryFlagStore._proto InMemoryFlagStore.inherited].
    rewrite Hname, Hv. reflexivity.
Qed.

End Store.

Lemma getFlag_upsertFlag_witness :
  let st := InMemoryFlagStore.new (Some [(lit "a", Sample.flag_all)]) in
  lit "b" <> lit "__proto__"
  /\ InMemoryFlagStore.getFlag
       (InMemoryFlagStore.upsertFlag st (lit "b") Sample.flag_none) (lit "b")
     = Sample.flag_none
  /\ InMemoryFlagStore.getFlag
       (InMemoryFlagStore.upsertFlag st (lit "b") Sample.flag_none) (lit "a")
     = Sample.flag_all.
Proof.
  cbv zeta.
  assert (Hk : lit "b" <> lit "__proto__") by (intros E; vm_compute in E; discriminate E).
  split; [exact Hk |].
  destruct (getFlag_upsertFlag
              (InMemoryFlagStore.new (Some [(lit "a", Sample.flag_all)]))
              (lit "b") Sample.flag_none Hk) as [Hsame Hother].
  split; [exact Hsame |]. rewrite Hother; [reflexivity |].
  intros E; vm_compute in E; discriminate E.
Defined.


Lemma upsertFlag_twice_witness :
  let st := InMemoryFlagStore.new (Some [(lit "a", Sample.flag_all)]) in
  lit "a" <> lit "__proto__"
  /\ InMemoryFlagStore.upsertFlag
       (InMemoryFlagStore.upsertFlag st (lit "a") Sample.flag_none) (lit "a")
       Sample.flag_half
     = InMemoryFlagStore.upsertFlag st (lit "a") Sample.flag_half.
Proof.
  cbv zeta.
  assert (Hk : lit "a" <> lit "__proto__") by (intros E; vm_compute in E; discriminate E).
  split; [exact Hk |].
  apply (upsertFlag_twice (InMemoryFlagStore.new (Some [(lit "a", Sample.flag_all)]))
           (lit "a") Sample.flag_none Sample.flag_half Hk).
Defined.

Lemma deleteFlag_absent_key_witness :
  let st := InMemoryFlagStore.new (Some [(lit "a", Sample.flag_all)]) in
  ~ In (lit "b") (keys (InMemoryFlagStore.getAllFlags st))
  /\ InMemoryFlagStore.deleteFlag st (lit "b") = st
  /\ InMemoryFlagStore.deleteFlag
       (InMemoryFlagStore.upsertFlag st (lit "b") Sample.flag_none) (lit "b") = st.
Proof.
  cbv zeta.
  assert (Hnot : ~ In (lit "b")
                   (keys (InMemoryFlagStore.getAllFlags
                            (InMemoryFlagStore.new (Some [(lit "a", Sample.flag_all)]))))).
  { vm_compute. intuition discriminate. }
  split; [exact Hnot |].
  destruct (deleteFlag_absent_key
              (InMemoryFlagStore.new (Some [(lit "a", Sample.flag_all)])) (lit "b")
              Sample.flag_none Hnot) as [Hsame Hundo].
  split; [exact Hsame |]. apply Hundo.
  intros E; vm_compute in E; discriminate E.
Defined.

(** The reads that follow a write of [{x: {enabled: true}}] to
    "__proto__" in the empty store. *)
Lemma upsertFlag_proto_key_witness :
  let st := InMemoryFlagStore.new None in
  let config := Sample.obj 70 [("x", Sample.obj 71 [("enabled", VBoolean true)])]%string in
  let st' := InMemoryFlagStore.upsertFlag st (lit "__proto__") config in
  lookup (lit "__proto__") (InMemoryFlagStore._flags st) = None
  /\ InMemoryFlagStore._proto st = InMemoryFlagStore.ObjectPrototype
  /\ InMemoryFlagStore.getAllFlags st' = []
  /\ InMemoryFlagStore.getFlag st' (lit "x")
     = Sample.obj 71 [("enabled", VBoolean true)]%string.
Proof.
  cbv zeta. split; [reflexivity |]. split; [reflexivity |].
  destruct (upsertFlag_proto_key (InMemoryFlagStore.new None)
              (Sample.obj 70 [("x", Sample.obj 71 [("enabled", VBoolean true)])]%string)
              eq_refl eq_refl) as (Hall & _ & Hread).
  split; [exact Hall |].
  apply (Hread 70%nat [(lit "x", Sample.obj 71 [("enabled", VBoolean true)]%string)]);
    reflexivity.
Defined.

(** ** What a result of [evaluate] tells *)

Section Results.

Context {S : Type} `{FlagStore S}.
Variable this : FeatureFlagClient S.
Variable key : ustring.
Variable context : Context.

Lemma evaluate_inv (r : EvaluationResult) :
  evaluate this key context = Normal r ->
  let fl := getFlag (store this) key in
  (ToBoolean fl = false
   /\ r = {| enabled := false; variant := None; flag := None |})
  \/ (ToBoolean fl = true
      /\ r = {| enabled := false; variant := None; flag := Some fl |}
      /\ ((exists en, get fl (lit "enabled") = Normal en /\ ToBoolean en = false)
          \/ conditions_gate fl context = Normal false
          \/ isInRollout this key fl context = Normal false))
  \/ (ToBoolean fl = true
      /\ (exists en, get fl (lit "enabled") = Normal en /\ ToBoolean en = true)
      /\ conditions_gate fl context = Normal true
      /\ isInRollout this key fl context = Normal true
      /\ exists v, _selectVariant this key fl context = Normal v
                   /\ r = {| enabled := true; variant := v; flag := Some fl |}).
Proof.
  intros Hev fl. rewrite evaluate_pipeline in Hev. cbv zeta in Hev. fold fl in Hev.
  destruct (ToBoolean fl) eqn:Ht; cbn [negb] in Hev.
  2:{ left. injection Hev as <-. split; reflexivity. }
  right.
  destruct (get fl (lit "enabled")) as [en | e] eqn:Hen; cbn [bind] in Hev;
    [| discriminate Hev].
  destruct (ToBoolean en) eqn:Hent; cbn [negb] in Hev.
  2:{ left. injection Hev as <-. split; [reflexivity |]. split; [reflexivity |].
      left. exists en. split; [reflexivity | exact Hent]. }
  destruct (conditions_gate fl context) as [passes | e] eqn:Hg; cbn [bind] in Hev;
    [| discriminate Hev].
  destruct passes; cbn [negb] in Hev.
  2:{ left. injection Hev as <-. split; [reflexivity |]. split; [reflexivity |].
      right. left. reflexivity. }
  destruct (isInRollout this key fl context) as [inside | e] eqn:Hin;
    cbn [bind] in Hev; [| discriminate Hev].
  destruct inside; cbn [negb] in Hev.
  2:{ left. injection Hev as <-. split; [reflexivity |]. split; [reflexivity |].
      right. right. reflexivity. }
  destruct (_selectVariant this key fl context) as [v | e] eqn:Hv;
    cbn [bind] in Hev; [| discriminate Hev].
  right. injection Hev as <-. split; [reflexivity |].
  split; [exists en; split; [reflexivity | exact Hent] |].
  split; [reflexivity |]. split; [reflexivity |].
  exists v. split; reflexivity.
Qed.

(** The [flag] field of a result is the stored definition, unchanged, and
    is missing exactly when the store holds none (or a falsy value); a
    disabled result has no variant; an enabled result has a flag. *)
Theorem evaluate_result_shape (r : EvaluationResult) :
  evaluate this key context = Normal r ->
  let fl := getFlag (store this) key in
  flag r = (if ToBoolean fl then Some fl else None)
  /\ (enabled r = false -> variant r = None)
  /\ (enabled r = true -> flag r = Some fl).
Proof.
  intros Hev fl.
  destruct (evaluate_inv r Hev) as
    [[Ht ->] | [(Ht & -> & _) | (Ht & _ & _ & _ & v & _ & ->)]];
    fold fl in Ht; rewrite Ht; cbn [flag enabled variant];
    repeat split; try reflexivity; intros E; discriminate E.
Qed.

(** [isEnabled] answers [true] exactly when the store holds a truthy
    definition whose [enabled] field is truthy, whose conditions do not
    fail, whose rollout includes the subject, and whose variant selection
    returns. *)
Theorem isEnabled_true_iff :
  let fl := getFlag (store this) key in
  isEnabled this key context = Normal true <->
  ToBoolean fl = true
  /\ (exists en, get fl (lit "enabled") = Normal en /\ ToBoolean en = true)
  /\ conditions_gate fl context = Normal true
  /\ isInRollout this key fl context = Normal true
  /\ returns (_selectVariant this key fl context).
Proof.
  intros fl. unfold isEnabled. split.
  - intros Hen.
    destruct (evaluate this key context) as [r | e] eqn:Hev; cbn [bind] in Hen;
      [| discriminate Hen].
    injection Hen as Hen.
    destruct (evaluate_inv r Hev) as
      [[_ ->] | [(_ & -> & _) | (Ht & Hfe & Hg & Hin & v & Hv & ->)]];
      try discriminate Hen.
    fold fl in Ht, Hfe, Hg, Hin, Hv.
    repeat split; try assumption. exists v. exact Hv.
  - intros (Ht & (en & Hfe & Hent) & Hg & Hin & (v & Hv)).
    rewrite evaluate_pipeline. cbv zeta. fold fl.
    rewrite Ht, Hfe. cbn [negb bind]. rewrite Hent, Hg. cbn [negb bind].
    rewrite Hin, Hv. reflexivity.
Qed.

(** [getVariant] names a variant only for a subject for which
    [isEnabled] answers [true], and the two calls throw together. *)
Theorem getVariant_isEnabled :
  (forall name, getVariant this key context = Normal (Some name) ->
                isEnabled this key context = Normal true)
  /\ (isEnabled this key context = Normal false ->
      getVariant this key context = Normal None)
  /\ (throws (getVariant this key context) <-> throws (isEnabled this key context)).
Proof.
  unfold getVariant, isEnabled.
  destruct (evaluate this key context) as [r | e] eqn:Hev; cbn [bind].
  - destruct (evaluate_inv r Hev) as
      [[_ ->] | [(_ & -> & _) | (_ & _ & _ & _ & v & _ & ->)]];
      cbn [enabled variant].
    + split; [intros name E; discriminate E |]. split; [reflexivity |].
      split; intros [e E]; discriminate E.
    + split; [intros name E; discriminate E |]. split; [reflexivity |].
      split; intros [e E]; discriminate E.
    + split; [reflexivity |]. split; [intros E; discriminate E |].
      split; intros [e E]; discriminate E.
  - split; [intros name E; discriminate E |]. split; [intros E; discriminate E |].
    split; intros _; exists e; reflexivity.
Qed.

End Results.

Lemma evaluate_result_shape_witness :
  let r := {| enabled := false; variant := None; flag := Some Sample.flag_disabled |} in
  evaluate Sample.ff (lit "disabled") (Sample.user "user-1") = Normal r
  /\ flag r = Some Sample.flag_disabled
  /\ (enabled r = false -> variant r = None)
  /\ (enabled r = true -> flag r = Some Sample.flag_disabled).
Proof.
  cbv zeta. split; [reflexivity |].
  exact (evaluate_result_shape Sample.ff (lit "disabled") (Sample.user "user-1")
           {| enabled := false; variant := None; flag := Some Sample.flag_disabled |}
           eq_refl).
Defined.

(** ** Lists of conditions *)

Lemma nullish_dec (v : value) : {nullish v} + {~ nullish v}.
Proof.
  destruct v; try (right; intros [E | E]; discriminate E);
    left; [left | right]; reflexivity.
Qed.

Lemma evaluateConditions_true_iff (conditions : list value) (context : Context) :
  _evaluateConditions conditions context = Normal true <->
  Forall (fun cond => ~ nullish cond /\ condition_holds context cond = true) conditions.
Proof.
  induction conditions as [| cond rest IH].
  - split; [constructor | reflexivity].
  - destruct (condition_defined_dec cond) as [Hd | Hnd].
    + pose proof (condition_defined_not_nullish _ Hd) as Hn.
      rewrite evaluateConditions_cons, (evaluateConditions_single_holds _ _ Hd).
      cbn [bind]. destruct (condition_holds context cond) eqn:Hc.
      * rewrite IH. split.
        -- intros Hrest. constructor; [split; assumption | exact Hrest].
        -- intros Hall. inversion Hall; assumption.
      * split; [discriminate |].
        intros Hall. inversion Hall as [| ? ? [_ Hholds] _]. congruence.
    + destruct (evaluateConditions_undefined context cond rest Hnd) as [[e He] Hholds].
      rewrite He. split; [discriminate |].
      intros Hall. inversion Hall as [| ? ? [_ Hc] _]. congruence.
Qed.

(** A concatenation of two condition lists passes exactly when both
    lists pass: adding conditions to a flag never enables it for a
    context. *)
Theorem evaluateConditions_app (first second : list value) (context : Context) :
  _evaluateConditions (first ++ second) context = Normal true <->
  _evaluateConditions first context = Normal true
  /\ _evaluateConditions second context = Normal true.
Proof.
  rewrite !evaluateConditions_true_iff. rewrite Forall_app. reflexivity.
Qed.

(** Whether a list of conditions passes does not depend on the order of
    the conditions. *)
Theorem evaluateConditions_order (conditions reordered : list value) (context : Context) :
  Permutation conditions reordered ->
  (_evaluateConditions conditions context = Normal true <->
   _evaluateConditions reordered context = Normal true).
Proof.
  intros Hp. rewrite !evaluateConditions_true_iff. split; intros Hall.
  - exact (Permutation_Forall Hp Hall).
  - exact (Permutation_Forall (Permutation_sym Hp) Hall).
Qed.

Lemma evaluateConditions_order_witness :
  let plan := Sample.obj 60 [("attribute", Sample.str "plan"); ("operator", Sample.str "eq");
                             ("value", Sample.str "pro")]%string in
  let user := Sample.obj 61 [("attribute", Sample.str "userId"); ("operator", Sample.str "neq");
                             ("value", Sample.str "root")]%string in
  Permutation [plan; user] [user; plan]
  /\ (_evaluateConditions [plan; user] (Sample.user "user-1") = Normal true <->
      _evaluateConditions [user; plan] (Sample.user "user-1") = Normal true).
Proof.
  cbv zeta. split; [apply perm_swap |].
  apply evaluateConditions_order. apply perm_swap.
Defined.

Section EnabledConditions.

Context {S : Type} `{FlagStore S}.
Variable this : FeatureFlagClient S.
Variable key : ustring.
Variable context : Context.

(** When [isEnabled] answers [true] for a flag whose conditions are an
    array, every condition of the array holds in the context. *)
Theorem isEnabled_conditions_hold (ref : nat) (conditions : list value) :
  isEnabled this key context = Normal true ->
  get (getFlag (store this) key) (lit "conditions") = Normal (VArray ref conditions) ->
  Forall (fun cond => ~ nullish cond /\ condition_holds context cond = true) conditions.
Proof.
  intros Hen Hc. unfold isEnabled in Hen.
  destruct (evaluate this key context) as [r | e] eqn:Hev; cbn [bind] in Hen;
    [| discriminate Hen].
  injection Hen as Hen.
  destruct (evaluate_inv this key context r Hev) as
    [[_ ->] | [(_ & -> & _) | (_ & _ & Hg & _)]]; try discriminate Hen.
  unfold conditions_gate in Hg. rewrite Hc in Hg.
  cbn [bind Array_isArray array_elems andb] in Hg.
  destruct conditions as [| cond rest]; [constructor |].
  replace (0 <? Z.of_nat (List.length (cond :: rest))) with true in Hg
    by (symmetry; apply Z.ltb_lt; cbn [List.length]; lia).
  apply evaluateConditions_true_iff. exact Hg.
Qed.

End EnabledConditions.

Lemma isEnabled_conditions_hold_witness :
  let cond := Sample.obj 32 [("attribute", Sample.str "plan"); ("operator", Sample.str "eq");
                             ("value", Sample.str "pro")]%string in
  isEnabled Sample.ff (lit "pro-only") (Sample.user "user-1") = Normal true
  /\ Forall (fun c => ~ nullish c /\ condition_holds (Sample.user "user-1") c = true) [cond].
Proof.
  cbv zeta. split; [reflexivity |].
  apply (isEnabled_conditions_hold Sample.ff (lit "pro-only") (Sample.user "user-1") 31);
    reflexivity.
Defined.

(** ** Bucketing *)

Section Bucketing.

Context {S : Type}.
Variable this : FeatureFlagClient S.
Variable key : ustring.

(** The bucket of a subject is an integer between 0 and 99. *)
Theorem computeBucket_range (identifier : ustring) :
  exists bucket,
    _computeBucket this key identifier = Normal (Fin bucket)
    /\ 0 <= bucket <= 99
    /\ bucket = fnv1a (rollout_key this key identifier) mod 100.
Proof.
  exists (fnv1a (rollout_key this key identifier) mod 100).
  unfold _computeBucket. fold (rollout_key this key identifier).
  rewrite hashStringToInt_positive by lia. cbn [bind].
  split; [reflexivity |]. split; [| reflexivity].
  pose proof (Z.mod_pos_bound (fnv1a (rollout_key this key identifier)) 100). lia.
Qed.

Lemma selectVariant_by_identifier (fl : value) (context : Context) :
  _selectVariant this key fl context =
  (variants <- get fl (lit "variants") ;;
   if negb (ToBoolean variants) || negb (ustring_eqb (typeof variants) (lit "object"))
   then Normal None
   else
     entries <- Object_entries variants ;;
     if (Z.of_nat (List.length entries) =? 0) then Normal None
     else
       totalWeight <- reduce_weights entries (Fin 0) ;;
       if num_leb totalWeight (Fin 0) then Normal None
       else
         identifier <- identifier_of this fl context ;;
         bucket <- hashStringToInt (variant_key this key identifier) totalWeight ;;
         found <- select_loop bucket entries (Fin 0) ;;
         match found with
         | Some name => Normal (Some name)
         | None =>
             last <- last_entry_name entries ;;
             match js_or last VNull with
             | VString name => Normal (Some name)
             | _ => Normal None
             end
         end).
Proof.
  unfold _selectVariant.
  destruct (get fl (lit "variants")) as [variants | e] eqn:Hv; [| reflexivity].
  cbn [bind].
  destruct (negb (ToBoolean variants)
            || negb (ustring_eqb (typeof variants) (lit "object"))); [reflexivity |].
  destruct (Object_entries variants) as [entries | e]; [| reflexivity]. cbn [bind].
  destruct (Z.of_nat (List.length entries) =? 0); [reflexivity |].
  destruct (reduce_weights entries (Fin 0)) as [totalWeight | e]; [| reflexivity].
  cbn [bind]. destruct (num_leb totalWeight (Fin 0)); [reflexivity |].
  destruct (get_not_nullish fl (lit "rollout") (get_Normal_not_nullish _ _ _ Hv))
    as [rollout Hr].
  rewrite Hr. cbn [bind]. unfold js_and, identifier_of.
  destruct (ToBoolean rollout) eqn:Hrt.
  - destruct (get_not_nullish rollout (lit "attribute") (ToBoolean_not_nullish _ Hrt))
      as [ra Ha].
    rewrite Ha. cbn [bind].
    rewrite (bucketing_attribute_rollout this fl rollout ra Hr Hrt Ha).
    destruct (context_get context _) as [v | e]; [| reflexivity]. cbn [bind].
    destruct (ToString _) as [identifier | e]; reflexivity.
  - cbn [bind]. rewrite (bucketing_attribute_no_rollout this fl rollout Hr Hrt).
    unfold js_or at 1. rewrite Hrt.
    destruct (context_get context _) as [v | e]; [| reflexivity]. cbn [bind].
    destruct (ToString _) as [identifier | e]; reflexivity.
Qed.

Lemma isInRollout_by_identifier (fl : value) (context context' : Context) :
  identifier_of this fl context = identifier_of this fl context' ->
  isInRollout this key fl context = isInRollout this key fl context'.
Proof.
  intros Hid.
  destruct (nullish_dec fl) as [[-> | ->] | Hfl]; [reflexivity | reflexivity |].
  destruct (get_not_nullish fl (lit "rollout") Hfl) as [rollout Hr].
  destruct (ToBoolean rollout) eqn:Ht.
  - destruct (get_not_nullish rollout (lit "percentage") (ToBoolean_not_nullish _ Ht))
      as [p Hp].
    destruct p as [| | b | n | s | r xs | r ps];
      try (rewrite !(isInRollout_not_number this key _ fl rollout _ Hr Ht Hp)
             by discriminate; reflexivity).
    rewrite !(isInRollout_number this key _ fl rollout n Hr Ht Hp).
    rewrite Hid. reflexivity.
  - rewrite !(isInRollout_no_rollout this key _ fl rollout Hr Ht). reflexivity.
Qed.

(** The rollout gate and the variant selector read the context only
    through the identifier of the subject: two contexts that give the
    same identifier are bucketed alike, whatever else they hold. *)
Theorem bucketing_by_identifier (fl : value) (context context' : Context) :
  identifier_of this fl context = identifier_of this fl context' ->
  isInRollout this key fl context = isInRollout this key fl context'
  /\ _selectVariant this key fl context = _selectVariant this key fl context'.
Proof.
  intros Hid. split; [apply isInRollout_by_identifier; exact Hid |].
  rewrite !selectVariant_by_identifier, Hid. reflexivity.
Qed.

Lemma selectVariant_same_variants (fl fl' : value) (context : Context) :
  get fl' (lit "variants") = get fl (lit "variants") ->
  bucketing_attribute this fl' = bucketing_attribute this fl ->
  _selectVariant this key fl' context = _selectVariant this key fl context.
Proof.
  intros Hv Ha. rewrite !selectVariant_by_identifier. unfold identifier_of.
  rewrite Hv, Ha. reflexivity.
Qed.

(** The variant of a subject does not depend on the rollout percentage:
    two definitions with the same variants and the same rollout
    attribute select the same variant, whatever their percentages. *)
Theorem selectVariant_ignores_percentage
  (fl fl' rollout rollout' : value) (context : Context) :
  get fl' (lit "variants") = get fl (lit "variants") ->
  get fl (lit "rollout") = Normal rollout ->
  get fl' (lit "rollout") = Normal rollout' ->
  ToBoolean rollout = true ->
  ToBoolean rollout' = true ->
  get rollout' (lit "attribute") = get rollout (lit "attribute") ->
  _selectVariant this key fl' context = _selectVariant this key fl context.
Proof.
  intros Hv Hr Hr' Ht Ht' Ha. apply selectVariant_same_variants; [exact Hv |].
  destruct (get_not_nullish rollout (lit "attribute") (ToBoolean_not_nullish _ Ht))
    as [ra Hra].
  rewrite (bucketing_attribute_rollout this fl rollout ra Hr Ht Hra).
  rewrite Hra in Ha.
  rewrite (bucketing_attribute_rollout this fl' rollout' ra Hr' Ht' Ha). reflexivity.
Qed.

End Bucketing.

Lemma bucketing_by_identifier_witness :
  let fl := MoreSamples.flag_checkout_at (Sample.num 50) in
  let as_number := MoreSamples.user_value (Sample.num 42) in
  let as_string := MoreSamples.user_value (Sample.str "42") in
  identifier_of Sample.ff fl as_number = identifier_of Sample.ff fl as_string
  /\ isInRollout Sample.ff (lit "checkout") fl as_number
     = isInRollout Sample.ff (lit "checkout") fl as_string
  /\ _selectVariant Sample.ff (lit "checkout") fl as_number
     = _selectVariant Sample.ff (lit "checkout") fl as_string.
Proof.
  cbv zeta. split; [reflexivity |].
  apply (bucketing_by_identifier Sample.ff (lit "checkout")). reflexivity.
Defined.

Lemma selectVariant_ignores_percentage_witness :
  let fl := MoreSamples.flag_checkout_at (Sample.num 10) in
  let fl' := MoreSamples.flag_checkout_at (Sample.num 90) in
  get fl' (lit "variants") = get fl (lit "variants")
  /\ _selectVariant Sample.ff (lit "checkout") fl' (Sample.user "user-2")
     = _selectVariant Sample.ff (lit "checkout") fl (Sample.user "user-2").
Proof.
  cbv zeta. split; [reflexivity |].
  apply (selectVariant_ignores_percentage Sample.ff (lit "checkout")
           (MoreSamples.flag_checkout_at (Sample.num 10))
           (MoreSamples.flag_checkout_at (Sample.num 90))
           (Sample.rollout_of 21 (Sample.num 10))
           (Sample.rollout_of 21 (Sample.num 90)));
    reflexivity.
Defined.

(** ** The selected variant *)

Lemma select_loop_some_in
  (bucket : number) (entries : properties) (acc : number) (name : ustring) :
  select_loop bucket entries acc = Normal (Some name) -> In name (keys entries).
Proof.
  revert acc. induction entries as [| [n cfg] rest IH]; intros acc Hloop.
  - discriminate Hloop.
  - cbn [select_loop] in Hloop.
    destruct (get cfg (lit "weight")) as [w | e]; cbn [bind] in Hloop;
      [| discriminate Hloop].
    destruct (num_ltb bucket _).
    + injection Hloop as ->. left. reflexivity.
    + right. exact (IH _ Hloop).
Qed.

Lemma last_entry_name_in (entries : properties) (last : value) :
  last_entry_name entries = Normal last ->
  exists name, last = VString name /\ In name (keys entries).
Proof.
  unfold last_entry_name. intros Hlast.
  destruct (rev entries) as [| [name cfg] rest] eqn:Hrev; [discriminate Hlast |].
  injection Hlast as <-. exists name. split; [reflexivity |].
  unfold keys. apply in_map_iff. exists (name, cfg). split; [reflexivity |].
  apply in_rev. rewrite Hrev. left. reflexivity.
Qed.

Lemma reduce_weights_defined (entries : properties) (sum total : number) :
  reduce_weights entries sum = Normal total -> entries_defined entries.
Proof.
  revert sum. induction entries as [| [name cfg] rest IH]; intros sum Hred.
  - constructor.
  - cbn [reduce_weights] in Hred.
    destruct (get cfg (lit "weight")) as [w | e] eqn:Hw; cbn [bind] in Hred;
      [| discriminate Hred].
    constructor; [exact (get_Normal_not_nullish _ _ _ Hw) | exact (IH _ Hred)].
Qed.

Lemma cumulative_weight_snoc (start : number) (pre : properties) (e : ustring * value) :
  cumulative_weight start (pre ++ [e])
  = num_add (cumulative_weight start pre) (variant_weight (snd e)).
Proof.
  unfold cumulative_weight. rewrite map_app, fold_left_app. reflexivity.
Qed.

Lemma variant_weight_cases (cfg : value) :
  variant_weight cfg = NaN
  \/ variant_weight cfg = Fin 0
  \/ num_ltb (Fin 0) (variant_weight cfg) = true.
Proof.
  unfold variant_weight. destruct (get cfg (lit "weight")) as [w | e]; [| auto].
  destruct w as [| | b | [z | | |] | s | r xs | r ps]; cbn; auto.
  destruct (Z.ltb_spec 0 z); cbn; auto.
  right. right. apply Z.ltb_lt. assumption.
Qed.

Lemma num_add_zero (c : number) : num_add c (Fin 0) = c.
Proof. destruct c as [z | | |]; cbn; [f_equal; lia | | |]; reflexivity. Qed.

Lemma first_exceeding_positive
  (h : Z) (total : number) (entries : properties) (name : ustring) :
  0 <= h ->
  first_exceeding (num_rem (Fin h) total) entries name ->
  exists cfg, In (name, cfg) entries /\ num_ltb (Fin 0) (variant_weight cfg) = true.
Proof.
  intros Hh (pre & cfg & post & He & Hhit & Hmiss).
  exists cfg. split; [rewrite He; apply in_elt |].
  unfold total_weight in Hhit. rewrite cumulative_weight_snoc in Hhit. cbn [snd] in Hhit.
  assert (Hbefore :
    num_ltb (num_rem (Fin h) total) (cumulative_weight (Fin 0) pre) = false).
  { destruct (list_eq_nil_dec pre) as [-> | Hne].
    - apply bucket_not_negative. exact Hh.
    - destruct (exists_last Hne) as [pre1 [e Hpre]].
      rewrite Hpre. apply (Hmiss pre1 e []). exact Hpre. }
  destruct (variant_weight_cases cfg) as [Hw | [Hw | Hw]]; [| | exact Hw].
  - rewrite Hw in Hhit.
    destruct (cumulative_weight (Fin 0) pre), (num_rem (Fin h) total); discriminate Hhit.
  - rewrite Hw, num_add_zero, Hbefore in Hhit. discriminate Hhit.
Qed.

Section SelectedVariant.

Context {S : Type}.
Variable this : FeatureFlagClient S.
Variable key : ustring.
Variable fl : value.
Variable context : Context.

(** A variant the selector returns is the name of an entry of the flag's
    variants mapping. *)
Theorem selectVariant_declared_name (name : ustring) :
  _selectVariant this key fl context = Normal (Some name) ->
  exists variants,
    get fl (lit "variants") = Normal variants
    /\ ToBoolean variants = true
    /\ In name (keys (own_entries variants)).
Proof.
  intros Hsel. rewrite selectVariant_by_identifier in Hsel.
  destruct (get fl (lit "variants")) as [variants | e]; cbn [bind] in Hsel;
    [| discriminate Hsel].
  exists variants. split; [reflexivity |].
  destruct (ToBoolean variants) eqn:Ht; [| discriminate Hsel].
  split; [reflexivity |]. cbn [negb orb] in Hsel.
  destruct (negb (ustring_eqb (typeof variants) (lit "object"))); [discriminate Hsel |].
  replace (Object_entries variants) with (Normal (own_entries variants)) in Hsel
    by (destruct variants; try reflexivity; discriminate Ht).
  cbn [bind] in Hsel.
  destruct (Z.of_nat (List.length (own_entries variants)) =? 0); [discriminate Hsel |].
  destruct (reduce_weights (own_entries variants) (Fin 0)) as [total | e];
    cbn [bind] in Hsel; [| discriminate Hsel].
  destruct (num_leb total (Fin 0)); [discriminate Hsel |].
  destruct (identifier_of this fl context) as [identifier | e]; cbn [bind] in Hsel;
    [| discriminate Hsel].
  destruct (hashStringToInt _ total) as [bucket | e]; cbn [bind] in Hsel;
    [| discriminate Hsel].
  destruct (select_loop bucket (own_entries variants) (Fin 0)) as [[found |] | e] eqn:Hloop;
    cbn [bind] in Hsel; [| | discriminate Hsel].
  - injection Hsel as ->. exact (select_loop_some_in _ _ _ _ Hloop).
  - destruct (last_entry_name (own_entries variants)) as [last | e] eqn:Hlast;
      cbn [bind] in Hsel; [| discriminate Hsel].
    destruct (last_entry_name_in _ _ Hlast) as [n [-> Hin]].
    unfold js_or in Hsel. destruct (ToBoolean (VString n)); [| discriminate Hsel].
    injection Hsel as ->. exact Hin.
Qed.

(** When the total weight is not [NaN], a variant the selector returns
    has a weight above 0: a variant of weight 0, of negative weight or
    with no numeric weight is never selected in place of the others. *)
Theorem selectVariant_positive_weight (variants : value) (name : ustring) :
  get fl (lit "variants") = Normal variants ->
  total_weight (own_entries variants) <> NaN ->
  _selectVariant this key fl context = Normal (Some name) ->
  exists cfg,
    In (name, cfg) (own_entries variants)
    /\ num_ltb (Fin 0) (variant_weight cfg) = true.
Proof.
  intros Hv Hn Hsel.
  destruct (ToBoolean variants) eqn:Ht.
  2:{ rewrite (selectVariant_not_object this key fl context variants Hv) in Hsel
        by (left; exact Ht). discriminate Hsel. }
  destruct (ustring_eqb (typeof variants) (lit "object")) eqn:Hty.
  2:{ rewrite (selectVariant_not_object this key fl context variants Hv) in Hsel.
      - discriminate Hsel.
      - right. intros Hty'. rewrite Hty', ustring_eqb_refl in Hty. discriminate Hty. }
  apply ustring_eqb_eq in Hty.
  assert (Hd : entries_defined (own_entries variants)).
  { pose proof Hsel as Hsel'. rewrite selectVariant_by_identifier, Hv in Hsel'.
    cbn [bind] in Hsel'. rewrite Ht, Hty, ustring_eqb_refl in Hsel'.
    cbn [negb orb] in Hsel'.
    replace (Object_entries variants) with (Normal (own_entries variants)) in Hsel'
      by (destruct variants; try reflexivity; discriminate Ht).
    cbn [bind] in Hsel'.
    destruct (Z.of_nat (List.length (own_entries variants)) =? 0); [discriminate Hsel' |].
    destruct (reduce_weights (own_entries variants) (Fin 0)) as [total | e] eqn:Hred;
      [| discriminate Hsel'].
    exact (reduce_weights_defined _ _ _ Hred). }
  destruct (num_leb (total_weight (own_entries variants)) (Fin 0)) eqn:Hpos.
  { rewrite (selectVariant_object this key fl context variants Hv Ht Hty Hd) in Hsel.
    cbv zeta in Hsel. rewrite Hpos in Hsel.
    destruct (own_entries variants); discriminate Hsel. }
  destruct (identifier_of this fl context) as [identifier | e] eqn:Hid.
  2:{ rewrite (selectVariant_object this key fl context variants Hv Ht Hty Hd) in Hsel.
      cbv zeta in Hsel. rewrite Hpos, Hid in Hsel.
      destruct (own_entries variants); discriminate Hsel. }
  destruct (first_exceeding_total (variant_key this key identifier) _ Hn Hpos)
    as [name' Hfirst].
  rewrite (selectVariant_first_exceeding this key fl context variants identifier name'
             Hv Ht Hty Hd Hpos Hid Hfirst) in Hsel.
  injection Hsel as <-.
  apply (first_exceeding_positive _ _ _ _ (proj1 (fnv1a_range _)) Hfirst).
Qed.

End SelectedVariant.

Lemma selectVariant_declared_name_witness :
  _selectVariant Sample.ff (lit "checkout") Sample.flag_checkout (Sample.user "user-2")
  = Normal (Some (lit "variantB"))
  /\ exists variants,
       get Sample.flag_checkout (lit "variants") = Normal variants
       /\ ToBoolean variants = true
       /\ In (lit "variantB") (keys (own_entries variants)).
Proof.
  assert (Hsel : _selectVariant Sample.ff (lit "checkout") Sample.flag_checkout
                   (Sample.user "user-2") = Normal (Some (lit "variantB")))
    by (vm_compute; reflexivity).
  split; [exact Hsel |].
  exact (selectVariant_declared_name Sample.ff (lit "checkout") Sample.flag_checkout
           (Sample.user "user-2") (lit "variantB") Hsel).
Defined.

Lemma selectVariant_positive_weight_witness :
  total_weight (own_entries MoreSamples.variants3) <> NaN
  /\ _selectVariant Sample.ff (lit "checkout") Sample.flag_checkout (Sample.user "user-2")
     = Normal (Some (lit "variantB"))
  /\ exists cfg,
       In (lit "variantB", cfg) (own_entries MoreSamples.variants3)
       /\ num_ltb (Fin 0) (variant_weight cfg) = true.
Proof.
  assert (Hn : total_weight (own_entries MoreSamples.variants3) <> NaN)
    by (vm_compute; discriminate).
  assert (Hsel : _selectVariant Sample.ff (lit "checkout") Sample.flag_checkout
                   (Sample.user "user-2") = Normal (Some (lit "variantB")))
    by (vm_compute; reflexivity).
  split; [exact Hn |]. split; [exact Hsel |].
  exact (selectVariant_positive_weight Sample.ff (lit "checkout") Sample.flag_checkout
           (Sample.user "user-2") MoreSamples.variants3 (lit "variantB")
           eq_refl Hn Hsel).
Defined.

(** ** What [evaluate] reads of the context *)

Lemma evaluateConditions_ext (conditions : list value) (context context' : Context) :
  (forall k, context_get context k = context_get context' k) ->
  _evaluateConditions conditions context = _evaluateConditions conditions context'.
Proof.
  intros Hext. induction conditions as [| cond rest IH]; [reflexivity |].
  cbn [_evaluateConditions].
  destruct (get cond (lit "attribute")) as [a | e]; [| reflexivity]. cbn [bind].
  rewrite (Hext a), IH. reflexivity.
Qed.

Section ContextExtensionality.

Context {S : Type} `{FlagStore S}.
Variable this : FeatureFlagClient S.
Variable key : ustring.

Lemma evaluate_ext (context context' : Context) :
  (forall k, context_get context k = context_get context' k) ->
  evaluate this key context = evaluate this key context'.
Proof.
  intros Hext. rewrite !evaluate_pipeline. cbv zeta.
  set (fl := getFlag (store this) key).
  assert (Hg : conditions_gate fl context = conditions_gate fl context').
  { unfold conditions_gate.
    destruct (get fl (lit "conditions")) as [conditions | e]; [| reflexivity].
    cbn [bind]. rewrite (evaluateConditions_ext _ context context' Hext). reflexivity. }
  assert (Hid : identifier_of this fl context = identifier_of this fl context')
    by (unfold identifier_of; rewrite Hext; reflexivity).
  rewrite Hg, (isInRollout_by_identifier this key fl context context' Hid).
  rewrite (selectVariant_by_identifier this key fl context).
  rewrite (selectVariant_by_identifier this key fl context'). rewrite Hid. reflexivity.
Qed.

(** An attribute the context lacks reads as [undefined]: a context that
    sets the attribute to [undefined] evaluates like the context without
    it. *)
Theorem evaluate_undefined_attribute (name : ustring) (context : Context) :
  is_prototype_name name = false ->
  ~ In name (keys context) ->
  evaluate this key ((name, VUndefined) :: context) = evaluate this key context.
Proof.
  intros _ Hnot. apply evaluate_ext. intros k. unfold context_get.
  destruct (ToString k) as [n | e]; [| reflexivity]. cbn [bind].
  unfold own_or_undefined. cbn [lookup].
  destruct (ustring_eqb name n) eqn:E; [| reflexivity].
  apply ustring_eqb_eq in E. subst name.
  apply lookup_None_iff in Hnot. rewrite Hnot. reflexivity.
Qed.

End ContextExtensionality.

Lemma evaluate_undefined_attribute_witness :
  is_prototype_name (lit "country") = false
  /\ ~ In (lit "country") (keys (Sample.user "user-3"))
  /\ evaluate Sample.ff (lit "half") ((lit "country", VUndefined) :: Sample.user "user-3")
     = evaluate Sample.ff (lit "half") (Sample.user "user-3").
Proof.
  assert (Hnot : ~ In (lit "country") (keys (Sample.user "user-3")))
    by (cbn; intuition discriminate).
  split; [reflexivity |]. split; [exact Hnot |].
  exact (evaluate_undefined_attribute Sample.ff (lit "half") (lit "country")
           (Sample.user "user-3") eq_refl Hnot).
Defined.

(** ** The client over a changing store *)

Lemma evaluate_with_store
  {S S' : Type} `{FlagStore S} `{FlagStore S'}
  (this : FeatureFlagClient S) (st : S') (key : ustring) (context : Context) :
  getFlag st key = getFlag (store this) key ->
  evaluate (with_store this st) key context = evaluate this key context.
Proof.
  intros Hsame. unfold evaluate. cbn [with_store store]. rewrite Hsame. reflexivity.
Qed.

Section ClientAndStore.

Variable this : FeatureFlagClient InMemoryFlagStore.t.
Variable key : ustring.
Variable context : Context.

(** Upserting another key, other than "__proto__", or deleting another
    key does not change how a key evaluates. *)
Theorem evaluate_other_key (other : ustring) (config : value) :
  other <> key ->
  (other <> lit "__proto__" ->
   evaluate (with_store this (InMemoryFlagStore.upsertFlag (store this) other config))
     key context = evaluate this key context)
  /\ evaluate (with_store this (InMemoryFlagStore.deleteFlag (store this) other))
       key context = evaluate this key context.
Proof.
  intros Hne. split; [intros Hk |]; apply evaluate_with_store;
    cbn [getFlag InMemoryFlagStore_FlagStore].
  - rewrite upsertFlag_own by (left; exact Hk). unfold InMemoryFlagStore.getFlag.
    cbn [InMemoryFlagStore._flags InMemoryFlagStore._proto].
    rewrite lookup_set_prop_other by congruence. reflexivity.
  - unfold InMemoryFlagStore.getFlag, InMemoryFlagStore.deleteFlag.
    cbn [InMemoryFlagStore._flags InMemoryFlagStore._proto].
    rewrite lookup_delete_prop_other by congruence. reflexivity.
Qed.

(** In a store whose prototype has not been replaced, after
    [deleteFlag(key)] a key that [Object.prototype] does not define
    evaluates as a flag the store never held: disabled, no variant, no
    [flag] field. *)
Theorem evaluate_after_deleteFlag :
  keys_unique (InMemoryFlagStore._flags (store this)) ->
  InMemoryFlagStore._proto (store this) = InMemoryFlagStore.ObjectPrototype ->
  is_prototype_name key = false ->
  evaluate (with_store this (InMemoryFlagStore.deleteFlag (store this) key)) key context
  = Normal {| enabled := false; variant := None; flag := None |}.
Proof.
  intros Hu Hproto _. unfold evaluate.
  cbn [with_store store getFlag InMemoryFlagStore_FlagStore].
  unfold InMemoryFlagStore.getFlag, InMemoryFlagStore.deleteFlag.
  cbn [InMemoryFlagStore._flags InMemoryFlagStore._proto].
  rewrite lookup_delete_prop_same by exact Hu. rewrite Hproto. reflexivity.
Qed.

End ClientAndStore.

Lemma evaluate_other_key_witness :
  lit "all" <> lit "half"
  /\ lit "all" <> lit "__proto__"
  /\ evaluate (with_store Sample.ff
                 (InMemoryFlagStore.upsertFlag (store Sample.ff) (lit "all") VNull))
       (lit "half") (Sample.user "user-3")
     = evaluate Sample.ff (lit "half") (Sample.user "user-3")
  /\ evaluate (with_store Sample.ff
                 (InMemoryFlagStore.deleteFlag (store Sample.ff) (lit "all")))
       (lit "half") (Sample.user "user-3")
     = evaluate Sample.ff (lit "half") (Sample.user "user-3").
Proof.
  assert (Hne : lit "all" <> lit "half") by discriminate.
  assert (Hk : lit "all" <> lit "__proto__") by discriminate.
  split; [exact Hne |]. split; [exact Hk |].
  destruct (evaluate_other_key Sample.ff (lit "half") (Sample.user "user-3")
              (lit "all") VNull Hne) as [Hupsert Hdelete].
  split; [exact (Hupsert Hk) | exact Hdelete].
Defined.

Lemma evaluate_after_deleteFlag_witness :
  keys_unique (InMemoryFlagStore._flags
                 (store (MoreSamples.ff_at (Sample.num 50))))
  /\ InMemoryFlagStore._proto (store (MoreSamples.ff_at (Sample.num 50)))
     = InMemoryFlagStore.ObjectPrototype
  /\ is_prototype_name (lit "checkout") = false
  /\ evaluate (with_store (MoreSamples.ff_at (Sample.num 50))
                 (InMemoryFlagStore.deleteFlag
                    (store (MoreSamples.ff_at (Sample.num 50))) (lit "checkout")))
       (lit "checkout") (Sample.user "user-3")
     = Normal {| enabled := false; variant := None; flag := None |}.
Proof.
  assert (Hu : keys_unique (InMemoryFlagStore._flags
                              (store (MoreSamples.ff_at (Sample.num 50)))))
    by (vm_compute; repeat constructor; cbn; intuition discriminate).
  split; [exact Hu |]. split; [reflexivity |]. split; [reflexivity |].
  exact (evaluate_after_deleteFlag (MoreSamples.ff_at (Sample.num 50)) (lit "checkout")
           (Sample.user "user-3") Hu eq_refl eq_refl).
Defined.

(** ** Raising the percentage of a rollout *)

Lemma rollout_decision_monotone
  (subject : completion ustring) (bucket : ustring -> Z) (p p' : number) :
  num_leb p p' = true ->
  (if num_eqb (clamp_percentage p) (Fin 0) then Normal false
   else if num_ltb (clamp_percentage p) (Fin 100)
        then identifier <- subject ;;
             Normal (negb (num_geb (Fin (bucket identifier)) (clamp_percentage p)))
        else Normal true) = Normal true ->
  (if num_eqb (clamp_percentage p') (Fin 0) then Normal false
   else if num_ltb (clamp_percentage p') (Fin 100)
        then identifier <- subject ;;
             Normal (negb (num_geb (Fin (bucket identifier)) (clamp_percentage p')))
        else Normal true) = Normal true.
Proof.
  intros Hle.
  assert (Hn : p <> NaN) by (intros ->; destruct p'; discriminate Hle).
  assert (Hn' : p' <> NaN) by (intros ->; destruct p; discriminate Hle).
  destruct (clamp_percentage_range p Hn) as [z [Hz Rz]].
  destruct (clamp_percentage_range p' Hn') as [z' [Hz' Rz']].
  pose proof (clamp_percentage_monotone p p' z z' Hle Hz Hz') as Hzz.
  rewrite Hz, Hz'. cbn [num_eqb num_ltb].
  destruct (Z.eqb_spec z 0); [discriminate |].
  destruct (Z.eqb_spec z' 0); [lia |].
  destruct (Z.ltb_spec z' 100); [| reflexivity].
  destruct (Z.ltb_spec z 100); [| lia].
  destruct subject as [identifier | e]; [| discriminate].
  cbn [bind]. rewrite !not_geb_Fin.
  destruct (Z.ltb_spec (bucket identifier) z); [| discriminate].
  destruct (Z.ltb_spec (bucket identifier) z'); [reflexivity | lia].
Qed.

Section RaisePercentage.

Variable this : FeatureFlagClient InMemoryFlagStore.t.
Variable key : ustring.
Variable context : Context.

(** Replacing a definition, under a key other than "__proto__", by one
    that differs only in a higher rollout percentage keeps every enabled
    subject enabled, with the same variant. *)
Theorem evaluate_raise_percentage
  (fl' rollout rollout' ra : value) (p p' : number) (v : option ustring) :
  let fl := getFlag (store this) key in
  key <> lit "__proto__" ->
  ToBoolean fl' = true ->
  get fl' (lit "enabled") = get fl (lit "enabled") ->
  get fl' (lit "conditions") = get fl (lit "conditions") ->
  get fl' (lit "variants") = get fl (lit "variants") ->
  get fl (lit "rollout") = Normal rollout ->
  ToBoolean rollout = true ->
  get rollout (lit "percentage") = Normal (VNumber p) ->
  get rollout (lit "attribute") = Normal ra ->
  get fl' (lit "rollout") = Normal rollout' ->
  ToBoolean rollout' = true ->
  get rollout' (lit "percentage") = Normal (VNumber p') ->
  get rollout' (lit "attribute") = Normal ra ->
  num_geb p' p = true ->
  evaluate this key context
  = Normal {| enabled := true; variant := v; flag := Some fl |} ->
  evaluate (with_store this (InMemoryFlagStore.upsertFlag (store this) key fl'))
    key context
  = Normal {| enabled := true; variant := v; flag := Some fl' |}.
Proof.
  intros fl Hk Ht' He Hc Hvs Hr Hrt Hp Ha Hr' Hrt' Hp' Ha' Hge Hev.
  destruct (evaluate_inv this key context _ Hev) as
    [[_ E] | [(_ & E & _) | (_ & (en & Hen & Hent) & Hg & Hin & v0 & Hv & E)]];
    try discriminate E.
  fold fl in Hen, Hg, Hin, Hv. injection E as ->.
  assert (Hattr : bucketing_attribute this fl' = bucketing_attribute this fl).
  { rewrite (bucketing_attribute_rollout this fl rollout ra Hr Hrt Ha).
    rewrite (bucketing_attribute_rollout this fl' rollout' ra Hr' Hrt' Ha').
    reflexivity. }
  rewrite evaluate_pipeline. cbv zeta.
  cbn [with_store store getFlag InMemoryFlagStore_FlagStore].
  replace (InMemoryFlagStore.getFlag
             (InMemoryFlagStore.upsertFlag (store this) key fl') key) with fl'
    by (rewrite upsertFlag_own by (left; exact Hk);
        unfold InMemoryFlagStore.getFlag;
        cbn [InMemoryFlagStore._flags]; rewrite lookup_set_prop_same; reflexivity).
  rewrite Ht', He, Hen. cbn [negb bind]. rewrite Hent. cbn [negb].
  replace (conditions_gate fl' context) with (conditions_gate fl context)
    by (unfold conditions_gate; rewrite Hc; reflexivity).
  rewrite Hg. cbn [bind negb].
  change (isInRollout (with_store this
            (InMemoryFlagStore.upsertFlag (store this) key fl')) key fl' context)
    with (isInRollout this key fl' context).
  change (_selectVariant (with_store this
            (InMemoryFlagStore.upsertFlag (store this) key fl')) key fl' context)
    with (_selectVariant this key fl' context).
  rewrite (selectVariant_same_variants this key fl fl' context Hvs Hattr), Hv.
  rewrite (isInRollout_number this key context fl rollout p Hr Hrt Hp) in Hin.
  rewrite (isInRollout_number this key context fl' rollout' p' Hr' Hrt' Hp').
  unfold identifier_of in *. rewrite Hattr.
  rewrite (rollout_decision_monotone _
             (fun identifier => fnv1a (rollout_key this key identifier) mod 100)
             p p' Hge Hin).
  reflexivity.
Qed.

End RaisePercentage.

Lemma evaluate_raise_percentage_witness :
  let this := MoreSamples.ff_at (Sample.num 50) in
  let fl := MoreSamples.flag_checkout_at (Sample.num 50) in
  let fl' := MoreSamples.flag_checkout_at (Sample.num 90) in
  let context := Sample.user "user-2" in
  num_geb (Fin 90) (Fin 50) = true
  /\ lit "checkout" <> lit "__proto__"
  /\ evaluate this (lit "checkout") context
     = Normal {| enabled := true; variant := Some (lit "variantB"); flag := Some fl |}
  /\ evaluate (with_store this
                 (InMemoryFlagStore.upsertFlag (store this) (lit "checkout") fl'))
       (lit "checkout") context
     = Normal {| enabled := true; variant := Some (lit "variantB"); flag := Some fl' |}.
Proof.
  cbv zeta. split; [reflexivity |].
  assert (Hk : lit "checkout" <> lit "__proto__") by discriminate.
  split; [exact Hk |].
  assert (Hev : evaluate (MoreSamples.ff_at (Sample.num 50)) (lit "checkout")
                  (Sample.user "user-2")
                = Normal {| enabled := true; variant := Some (lit "variantB");
                            flag := Some (MoreSamples.flag_checkout_at (Sample.num 50)) |})
    by (vm_compute; reflexivity).
  split; [exact Hev |].
  apply (evaluate_raise_percentage (MoreSamples.ff_at (Sample.num 50)) (lit "checkout")
           (Sample.user "user-2")
           (MoreSamples.flag_checkout_at (Sample.num 90))
           (Sample.rollout_of 21 (Sample.num 50)) (Sample.rollout_of 21 (Sample.num 90))
           (Sample.str "userId") (Fin 50) (Fin 90) (Some (lit "variantB")));
    first [exact Hev | exact Hk | reflexivity].
Defined.

(** The key "__proto__" is excluded.  In a store whose prototype is the
    definition [{enabled: true, rollout: {percentage: 50}}] that key
    evaluates to enabled.  The same definition at 80% with an own
    property "__proto__" (as [JSON.parse] builds it), written to the
    key, becomes the prototype; the key then reads the property of the
    prototype, not the definition, and evaluates to disabled. *)
Example evaluate_raise_percentage_proto_key :
  let st := InMemoryFlagStore.upsertFlag (InMemoryFlagStore.new None)
              (lit "__proto__") Sample.flag_half in
  let this := new_FeatureFlagClient (Some st) None None in
  let fl' := Sample.obj 12 [("__proto__", Sample.num 5); ("enabled", VBoolean true);
                            ("rollout", Sample.rollout_of 13 (Sample.num 80))]%string in
  let context := Sample.user "user-2" in
  evaluate this (lit "__proto__") context
  = Normal {| enabled := true; variant := None; flag := Some Sample.flag_half |}
  /\ evaluate (with_store this (InMemoryFlagStore.upsertFlag st (lit "__proto__") fl'))
       (lit "__proto__") context
     = Normal {| enabled := false; variant := None; flag := Some (Sample.num 5) |}.
Proof. split; vm_compute; reflexivity. Qed.

(** ** Edges of the hash *)

(** With a [max] of at least 2^32, or [+Infinity], the hash is returned
    unreduced; with [max = 1] it is 0; with [max = NaN] it is [NaN]. *)
Theorem hashStringToInt_edges (str : ustring) :
  (forall max, 2 ^ 32 <= max ->
     hashStringToInt str (Fin max) = Normal (Fin (fnv1a str)))
  /\ hashStringToInt str PosInf = Normal (Fin (fnv1a str))
  /\ hashStringToInt str (Fin 1) = Normal (Fin 0)
  /\ hashStringToInt str NaN = Normal NaN.
Proof.
  pose proof (fnv1a_range str) as Hr.
  split.
  { intros max Hmax. rewrite hashStringToInt_positive by lia.
    rewrite Z.mod_small by lia. reflexivity. }
  split; [apply hashStringToInt_any |].
  split; [| apply hashStringToInt_any].
  rewrite hashStringToInt_positive by lia. rewrite Z.mod_1_r. reflexivity.
Qed.

(** ** The constructor *)

(** A client built by the constructor never has an empty seed or an empty
    default attribute: a missing or empty option gives the default, any
    other string is kept.  Built without a store, it evaluates every key
    (that [Object.prototype] does not define) as a flag the store does
    not hold. *)
Theorem constructor_defaults
  (st : option InMemoryFlagStore.t) (sd attr : option ustring) :
  let this := new_FeatureFlagClient st sd attr in
  seed this <> [] /\ defaultRolloutAttribute this <> []
  /\ (sd = None \/ sd = Some [] -> seed this = lit "feature-flags-default-seed")
  /\ (attr = None \/ attr = Some [] -> defaultRolloutAttribute this = lit "userId")
  /\ (forall s, s <> [] -> sd = Some s -> seed this = s)
  /\ (forall a, a <> [] -> attr = Some a -> defaultRolloutAttribute this = a)
  /\ (st = None -> forall key context,
        is_prototype_name key = false ->
        evaluate this key context
        = Normal {| enabled := false; variant := None; flag := None |}).
Proof.
  cbv zeta. unfold new_FeatureFlagClient. cbn [seed defaultRolloutAttribute].
  split; [destruct sd as [[| c s] |]; cbn [option_or]; intros E;
          first [discriminate E | vm_compute in E; discriminate E] |].
  split; [destruct attr as [[| c a] |]; cbn [option_or]; intros E;
          first [discriminate E | vm_compute in E; discriminate E] |].
  split; [intros [-> | ->]; reflexivity |].
  split; [intros [-> | ->]; reflexivity |].
  split; [intros s Hs ->; destruct s; [contradiction | reflexivity] |].
  split; [intros a Ha ->; destruct a; [contradiction | reflexivity] |].
  intros -> key context _. reflexivity.
Qed.

(** ** When the evaluators throw *)

(** The entries of a conditions array that the evaluator cannot read. *)
Lemma not_condition_defined_iff (cond : value) :
  ~ condition_defined cond <->
  nullish cond
  \/ exists attribute,
       get cond (lit "attribute") = Normal attribute /\ throws (ToString attribute).
Proof.
  split.
  - intros Hnd. destruct (nullish_dec cond) as [Hn | Hn]; [left; exact Hn | right].
    destruct (get_not_nullish cond (lit "attribute") Hn) as [a Ha].
    exists a. split; [exact Ha |].
    destruct (ToString a) as [name | e] eqn:Hk; [| exists e; reflexivity].
    exfalso. apply Hnd. exists a. split; [exact Ha | exists name; exact Hk].
  - intros [Hn | (a & Ha & Hthrows)] Hd.
    + exact (condition_defined_not_nullish _ Hd Hn).
    + destruct Hd as (a' & Ha' & Hret). rewrite Ha in Ha'. injection Ha' as <-.
      exact (returns_not_throws _ Hret Hthrows).
Qed.

(** The condition evaluator throws exactly when it reaches an entry it
    cannot read, that is, when an entry that is [undefined] or [null],
    or whose attribute has no property name, comes after conditions that
    all hold.  (Stated for conditions on properties that are plain data
    of the context.) *)
Theorem evaluateConditions_throws_iff (conditions : list value) (context : Context) :
  Forall (condition_plain context) conditions ->
  (throws (_evaluateConditions conditions context) <->
   exists pre cond post,
     conditions = pre ++ cond :: post
     /\ Forall (fun c => ~ nullish c /\ condition_holds context c = true) pre
     /\ (nullish cond
         \/ exists attribute,
              get cond (lit "attribute") = Normal attribute
              /\ throws (ToString attribute))).
Proof.
  intros _. induction conditions as [| c rest IH].
  - split.
    + intros [e E]. discriminate E.
    + intros (pre & cond & post & E & _). destruct pre; discriminate E.
  - destruct (condition_defined_dec c) as [Hd | Hnd].
    + pose proof (condition_defined_not_nullish _ Hd) as Hn.
      rewrite evaluateConditions_cons, (evaluateConditions_single_holds _ _ Hd).
      cbn [bind]. destruct (condition_holds context c) eqn:Hc.
      * rewrite IH. split.
        -- intros (pre & cond & post & -> & Hall & Hcond).
           exists (c :: pre), cond, post.
           repeat split; [constructor; [split; assumption | exact Hall] | exact Hcond].
        -- intros (pre & cond & post & E & Hall & Hcond).
           destruct pre as [| c0 pre]; cbn [app] in E; injection E as <- ->.
           ++ exfalso. apply (proj2 (not_condition_defined_iff c)); assumption.
           ++ exists pre, cond, post. inversion Hall. repeat split; assumption.
      * split.
        -- intros [e E]. discriminate E.
        -- intros (pre & cond & post & E & Hall & Hcond).
           destruct pre as [| c0 pre]; cbn [app] in E; injection E as <- ->.
           ++ exfalso. apply (proj2 (not_condition_defined_iff c)); assumption.
           ++ inversion Hall as [| ? ? [_ Hholds] _]. congruence.
    + destruct (evaluateConditions_undefined context c rest Hnd) as [Hthrows Hholds].
      split; [| intros _; exact Hthrows].
      intros _. exists [], c, rest. split; [reflexivity |]. split; [constructor |].
      apply not_condition_defined_iff. exact Hnd.
Qed.

Lemma evaluateConditions_throws_iff_witness :
  let plan := Sample.obj 32 [("attribute", Sample.str "plan"); ("operator", Sample.str "eq");
                             ("value", Sample.str "pro")]%string in
  Forall (condition_plain (Sample.user "user-1")) [plan; VNull]
  /\ throws (_evaluateConditions [plan; VNull] (Sample.user "user-1")).
Proof.
  cbv zeta.
  assert (Hplain : Forall (condition_plain (Sample.user "user-1"))
                     [Sample.obj 32 [("attribute", Sample.str "plan");
                                     ("operator", Sample.str "eq");
                                     ("value", Sample.str "pro")]%string; VNull]).
  { constructor; [| constructor; [| constructor]].
    - intros attribute name Ha Hk. injection Ha as <-. injection Hk as <-.
      left. right. left. reflexivity.
    - intros attribute name Ha. discriminate Ha. }
  split; [exact Hplain |].
  apply (evaluateConditions_throws_iff _ _ Hplain).
  exists [Sample.obj 32 [("attribute", Sample.str "plan"); ("operator", Sample.str "eq");
                         ("value", Sample.str "pro")]%string], VNull, [].
  split; [reflexivity |]. split; [| left; right; reflexivity].
  constructor; [| constructor].
  split; [intros [E | E]; discriminate E | reflexivity].
Defined.

Lemma reduce_weights_throws (entries : properties) (sum : number) :
  ~ entries_defined entries -> reduce_weights entries sum = Throw TypeError.
Proof.
  revert sum. induction entries as [| [name cfg] rest IH]; intros sum Hnot.
  - contradiction Hnot. constructor.
  - cbn [reduce_weights]. destruct (nullish_dec cfg) as [[-> | ->] | Hc];
      [reflexivity | reflexivity |].
    destruct (get_not_nullish cfg (lit "weight") Hc) as [w Hw]. rewrite Hw.
    cbn [bind]. apply IH. intros Hd. apply Hnot. constructor; assumption.
Qed.

Lemma entries_defined_dec (entries : properties) :
  {entries_defined entries} + {~ entries_defined entries}.
Proof.
  unfold entries_defined. apply Forall_dec. intros e.
  destruct (nullish_dec (snd e)); [right | left]; tauto.
Qed.

Section SelectorThrows.

Context {S : Type} `{FlagStore S}.
Variable this : FeatureFlagClient S.
Variable key : ustring.
Variable context : Context.

(** On a flag definition (a truthy value) the variant selector throws
    exactly when the variants are an object and either an entry is
    [undefined] or [null], wherever it stands, or the entries are
    defined, their total weight is not <= 0 and the identifier of the
    subject has no string. *)
Theorem selectVariant_throws_iff (fl variants : value) :
  get fl (lit "variants") = Normal variants ->
  (throws (_selectVariant this key fl context) <->
   ToBoolean variants = true /\ typeof variants = lit "object"
   /\ (~ entries_defined (own_entries variants)
       \/ (entries_defined (own_entries variants)
           /\ own_entries variants <> []
           /\ num_leb (total_weight (own_entries variants)) (Fin 0) = false
           /\ throws (identifier_of this fl context)))).
Proof.
  intros Hv. split.
  - intros Hthrows.
    destruct (ToBoolean variants) eqn:Ht.
    2:{ exfalso. destruct Hthrows as [e E].
        rewrite (selectVariant_not_object this key fl context variants Hv) in E
          by (left; exact Ht). discriminate E. }
    destruct (ustring_eqb (typeof variants) (lit "object")) eqn:Hty.
    2:{ exfalso. destruct Hthrows as [e E].
        rewrite (selectVariant_not_object this key fl context variants Hv) in E.
        - discriminate E.
        - right. intros Hty'. rewrite Hty', ustring_eqb_refl in Hty. discriminate Hty. }
    apply ustring_eqb_eq in Hty. split; [reflexivity |]. split; [exact Hty |].
    destruct (entries_defined_dec (own_entries variants)) as [Hd | Hnd];
      [right | left; exact Hnd].
    split; [exact Hd |].
    destruct (identifier_of this fl context) as [identifier | e] eqn:Hid.
    { exfalso.
      apply (returns_not_throws _ (selectVariant_returns this key context
                                     fl variants Hv Hd
                                     (ex_intro _ identifier Hid))).
      exact Hthrows. }
    destruct Hthrows as [e' E].
    rewrite (selectVariant_object this key fl context variants Hv Ht Hty Hd) in E.
    cbv zeta in E.
    destruct (own_entries variants) as [| e0 rest]; [discriminate E |].
    split; [discriminate |].
    destruct (num_leb (total_weight (e0 :: rest)) (Fin 0)); [discriminate E |].
    split; [reflexivity | exists e; reflexivity].
  - intros (Ht & Hty & [Hnd | (Hd & Hne & Hpos & [e Hid])]).
    + exists TypeError.
      unfold _selectVariant. rewrite Hv. cbn [bind].
      rewrite Ht, Hty, ustring_eqb_refl. cbn [negb orb].
      replace (Object_entries variants) with (Normal (own_entries variants))
        by (destruct variants; try reflexivity; discriminate Ht).
      cbn [bind].
      destruct (own_entries variants) as [| e rest] eqn:He;
        [contradiction Hnd; constructor |].
      replace (Z.of_nat (List.length (e :: rest)) =? 0) with false
        by (symmetry; apply Z.eqb_neq; cbn [List.length]; lia).
      rewrite reduce_weights_throws by exact Hnd. reflexivity.
    + exists e.
      apply (selectVariant_uncoercible this key fl context variants); assumption.
Qed.

(** On a flag definition the rollout gate throws exactly when it has to
    hash, the percentage being a number clamped strictly between 0 and
    100, and the identifier of the subject has no string. *)
Theorem isInRollout_throws_iff (fl : value) :
  ~ nullish fl ->
  (throws (isInRollout this key fl context) <->
   exists rollout p,
     get fl (lit "rollout") = Normal rollout
     /\ ToBoolean rollout = true
     /\ get rollout (lit "percentage") = Normal (VNumber p)
     /\ num_eqb (clamp_percentage p) (Fin 0) = false
     /\ num_ltb (clamp_percentage p) (Fin 100) = true
     /\ throws (identifier_of this fl context)).
Proof.
  intros Hfl. destruct (get_not_nullish fl (lit "rollout") Hfl) as [rollout Hr].
  destruct (ToBoolean rollout) eqn:Ht.
  2:{ rewrite (isInRollout_no_rollout this key context fl rollout Hr Ht). split.
      - intros [e E]. discriminate E.
      - intros (r & p & Hr' & Ht' & _). rewrite Hr in Hr'. injection Hr' as <-.
        congruence. }
  destruct (get_not_nullish rollout (lit "percentage") (ToBoolean_not_nullish _ Ht))
    as [pv Hp].
  assert (Hnumber : (forall n, pv <> VNumber n) \/ exists p, pv = VNumber p)
    by (destruct pv; try (left; discriminate); right; eexists; reflexivity).
  destruct Hnumber as [Hnot | [p ->]].
  { rewrite (isInRollout_not_number this key context fl rollout pv Hr Ht Hp Hnot). split.
    - intros [e E]. discriminate E.
    - intros (r & p & Hr' & _ & Hp' & _). rewrite Hr in Hr'. injection Hr' as <-.
      rewrite Hp in Hp'. injection Hp' as ->. contradiction (Hnot p). reflexivity. }
  rewrite (isInRollout_number this key context fl rollout p Hr Ht Hp). split.
  - intros [e E]. exists rollout, p.
    split; [exact Hr |]. split; [exact Ht |]. split; [exact Hp |].
    destruct (num_eqb (clamp_percentage p) (Fin 0)); [discriminate E |].
    split; [reflexivity |].
    destruct (num_ltb (clamp_percentage p) (Fin 100)); [| discriminate E].
    split; [reflexivity |].
    destruct (identifier_of this fl context) as [identifier | e'];
      [discriminate E | exists e'; reflexivity].
  - intros (r & p0 & Hr' & _ & Hp' & Hzero & Hbelow & [e Hid]).
    rewrite Hr in Hr'. injection Hr' as <-. rewrite Hp in Hp'. injection Hp' as <-.
    rewrite Hzero, Hbelow, Hid. exists e. reflexivity.
Qed.

End SelectorThrows.

Lemma selectVariant_throws_iff_witness :
  get Sample.flag_null_variant (lit "variants")
  = Normal (Sample.obj 43 [("a"%string, VNull)])
  /\ throws (_selectVariant Sample.ff (lit "null-variant") Sample.flag_null_variant
               (Sample.user "user-1")).
Proof.
  split; [reflexivity |].
  apply (selectVariant_throws_iff Sample.ff (lit "null-variant") (Sample.user "user-1")
           Sample.flag_null_variant (Sample.obj 43 [("a"%string, VNull)]) eq_refl).
  split; [reflexivity |]. split; [reflexivity |]. left.
  intros Hd. inversion Hd as [| ? ? Hc _]. apply Hc. right. reflexivity.
Defined.

(** The identifier [{toString: 1}] has no string: at 50% the rollout
    gate throws. *)
Lemma isInRollout_throws_iff_witness :
  let context := MoreSamples.user_value (Sample.obj 80 [("toString", Sample.num 1)]%string) in
  ~ nullish Sample.flag_half
  /\ throws (isInRollout Sample.ff (lit "half") Sample.flag_half context).
Proof.
  cbv zeta.
  assert (Hfl : ~ nullish Sample.flag_half) by (intros [E | E]; discriminate E).
  split; [exact Hfl |].
  apply (isInRollout_throws_iff Sample.ff (lit "half") _ Sample.flag_half Hfl).
  exists (Sample.rollout_of 11 (Sample.num 50)), (Fin 50).
  repeat split. exists TypeError. reflexivity.
Defined.

Section EvaluateThrows.

Context {S : Type} `{FlagStore S}.
Variable this : FeatureFlagClient S.
Variable key : ustring.
Variable context : Context.

(** [evaluate] throws only for a stored, enabled definition, and then
    exactly when the condition evaluator throws, or the subject passes
    the conditions and the rollout gate throws, or the subject passes
    the conditions and the rollout gate and the variant selector throws;
    the lookup and the enabled switch never throw. *)
Theorem evaluate_throws_iff :
  let fl := getFlag (store this) key in
  throws (evaluate this key context) <->
  ToBoolean fl = true
  /\ (exists en, get fl (lit "enabled") = Normal en /\ ToBoolean en = true)
  /\ (throws (conditions_gate fl context)
      \/ (conditions_gate fl context = Normal true
          /\ (throws (isInRollout this key fl context)
              \/ (isInRollout this key fl context = Normal true
                  /\ throws (_selectVariant this key fl context))))).
Proof.
  intros fl. rewrite evaluate_pipeline. cbv zeta. fold fl.
  destruct (ToBoolean fl) eqn:Ht; cbn [negb].
  2:{ split; [intros [e E]; discriminate E | intros [E _]; discriminate E]. }
  pose proof (ToBoolean_not_nullish _ Ht) as Hfl.
  destruct (get_not_nullish fl (lit "enabled") Hfl) as [en Hen]. rewrite Hen.
  cbn [bind]. destruct (ToBoolean en) eqn:Hent; cbn [negb].
  2:{ split; [intros [e E]; discriminate E |].
      intros (_ & (en' & [= <-] & Hent') & _). congruence. }
  destruct (conditions_gate fl context) as [passes | e] eqn:Hg; cbn [bind].
  2:{ split; [| intros _; exists e; reflexivity].
      intros _. split; [reflexivity |]. split; [exists en; auto |].
      left. exists e. reflexivity. }
  destruct passes; cbn [negb].
  2:{ split; [intros [e E]; discriminate E |].
      intros (_ & _ & [[e E] | (E & _)]); discriminate E. }
  destruct (isInRollout this key fl context) as [inside | e] eqn:Hin; cbn [bind].
  2:{ split; [| intros _; exists e; reflexivity].
      intros _. split; [reflexivity |]. split; [exists en; auto |].
      right. split; [reflexivity |]. left. exists e. reflexivity. }
  destruct inside; cbn [negb].
  2:{ split; [intros [e E]; discriminate E |].
      intros (_ & _ & [[e E] | (_ & [[e E] | (E & _)])]); discriminate E. }
  destruct (_selectVariant this key fl context) as [v | e]; cbn [bind].
  - split; [intros [e E]; discriminate E |].
    intros (_ & _ & [[e E] | (_ & [[e E] | (_ & [e E])])]); discriminate E.
  - split; [| intros _; exists e; reflexivity].
    intros _. split; [reflexivity |]. split; [exists en; auto |].
    right. split; [reflexivity |]. right. split; [reflexivity |].
    exists e. reflexivity.
Qed.

End EvaluateThrows.
